(** * The peer-connection layer and the block-delay helper of the node

    A shallow embedding of [p2p/peer.go] (the peer of one remote
    participant: send path, read loop, metrics reporter, wiring) and of
    the two revisions of [state.CalculateDelay], with the properties the
    specification states about them; further, of the e2e runner's [Save]
    and [copyFile], with properties of the calls they make.

    Conventions.  Go's [int64]/[time.Duration] are [Z] with the
    wrap-around written out ([Int64.wrap]); [int] is 64 bits wide.  A Go
    [error] is [option string] ([None] is [nil]).  Code that can panic
    returns an [outcome].  A function that starts goroutines with [go]
    returns the list of the goroutines it started next to its result.
    What a reactor does with the peer it is handed while it handles a
    message is a parameter of the development (the class [Reactor]): the
    sequence of calls it makes on the methods of the peer. *)

From Stdlib Require Import ZArith Lia.
From stdpp Require Import gmap strings list fin_maps.

Local Open Scope Z_scope.

(** A Go [error]: [None] is [nil]. *)
Definition error := option string.

(* ===================================================================== *)
(** ** 64-bit signed integers *)
(* ===================================================================== *)

Module Int64.

Definition min : Z := - 2 ^ 63.
Definition max : Z := 2 ^ 63 - 1.

Definition valid (z : Z) : Prop := min <= z <= max.

(** Two's complement reduction of a mathematical integer. *)
Definition wrap (z : Z) : Z := (z + 2 ^ 63) mod 2 ^ 64 - 2 ^ 63.

Definition add (x y : Z) : Z := wrap (x + y).
Definition sub (x y : Z) : Z := wrap (x - y).
Definition mul (x y : Z) : Z := wrap (x * y).
(** Go's [/] truncates toward zero. *)
Definition quot (x y : Z) : Z := wrap (Z.quot x y).

End Int64.

(* ===================================================================== *)
(** ** Package [time] (the part the code uses) *)
(* ===================================================================== *)

Module time.

(** [time.Duration] is an [int64] count of nanoseconds. *)
Definition Duration := Z.

Definition Millisecond : Duration := 1000000.
Definition Second : Duration := 1000000000.

(** [d.Nanoseconds()] is [int64(d)]. *)
Definition Nanoseconds (d : Duration) : Z := d.

(** [d.Abs()]: the minimum duration is sent to the maximum one. *)
Definition Abs (d : Duration) : Duration :=
  if 0 <=? d then d
  else if d =? Int64.min then Int64.max
  else - d.

(** An instant, as nanoseconds elapsed since the zero time
    (January 1, year 1, 00:00:00 UTC). *)
Record Time := mkTime { instant : Z }.

Definition IsZero (t : Time) : bool := instant t =? 0.

(** [t.Sub(u)]: the duration [t - u], saturated at the largest and
    smallest [Duration]. *)
Definition Sub (t u : Time) : Duration :=
  let d := instant t - instant u in
  if d <? Int64.min then Int64.min
  else if Int64.max <? d then Int64.max
  else d.

(** [t.Add(d)]. *)
Definition Add (t : Time) (d : Duration) : Time := mkTime (instant t + d).

End time.

(* ===================================================================== *)
(** ** Package [state]: [CalculateDelay] *)
(* ===================================================================== *)

Module state.

Record State := { GenesisTime : time.Time }.

Record BlockParams := { BlockTime : time.Duration }.
Record ConsensusParams := { Block : BlockParams }.

(** [types.Block] with the two header fields that are read. *)
Record Block_ := { Height : Z; Time : time.Time }.

(** The [Store] interface: what the two calls return. *)
Record Store := {
  Load : State * error;
  LoadConsensusParams : Z -> ConsensusParams * error
}.

(** The earlier revision, with the literal constants 10 and 5. *)
Module Literal.

Definition CalculateDelay (store : Store) (currentBlock : Block_)
  : time.Duration :=
  let '(state, err) := Load store in
  if err is Some _ then 0 else
  let '(consensusParams, err) :=
    LoadConsensusParams store (Int64.sub (Height currentBlock) 1) in
  if err is Some _ then 0 else
  let blockTime := BlockTime (Block consensusParams) in
  let idealNextBlockDelay :=
    Int64.sub blockTime (Int64.quot blockTime 10) in
  let genesisTime := GenesisTime state in
  if time.IsZero genesisTime then 0 else
  let gotDuration := time.Sub (Time currentBlock) genesisTime in
  let expected :=
    Int64.mul (time.Nanoseconds blockTime)
              (Int64.sub (Height currentBlock) 1) in
  let expectedDuration : time.Duration := expected in
  let diff := Int64.sub gotDuration expectedDuration in
  let threshold := Int64.quot idealNextBlockDelay 5 in
  if Int64.quot idealNextBlockDelay 5 <? time.Abs diff then
    if 0 <? diff then Int64.sub idealNextBlockDelay threshold
    else Int64.add idealNextBlockDelay threshold
  else Int64.sub idealNextBlockDelay diff.

End Literal.

Definition MsgProcDelayRatio : Z := 10.
Definition DeflectionRatio : Z := 5.

(** The later revision, with the named constants. *)
Definition CalculateDelay (store : Store) (currentBlock : Block_)
  : time.Duration :=
  let '(state, err) := Load store in
  if err is Some _ then 0 else
  let '(consensusParams, err) :=
    LoadConsensusParams store (Int64.sub (Height currentBlock) 1) in
  if err is Some _ then 0 else
  let blockTime := BlockTime (Block consensusParams) in
  let msgProcDelay := Int64.quot blockTime MsgProcDelayRatio in
  let idealNextBlockDelay := Int64.sub blockTime msgProcDelay in
  let genesisTime := GenesisTime state in
  if time.IsZero genesisTime then 0 else
  let gotDuration := time.Sub (Time currentBlock) genesisTime in
  let expected :=
    Int64.mul (time.Nanoseconds blockTime)
              (Int64.sub (Height currentBlock) 1) in
  let expectedDuration : time.Duration := expected in
  let diff := Int64.sub gotDuration expectedDuration in
  let threshold := Int64.quot idealNextBlockDelay DeflectionRatio in
  if threshold <? time.Abs diff then
    if 0 <? diff then Int64.sub idealNextBlockDelay threshold
    else Int64.add idealNextBlockDelay threshold
  else Int64.sub idealNextBlockDelay diff.

(** The quantities the properties are stated with. *)
Definition idealDelay (blockTime : time.Duration) : time.Duration :=
  Int64.sub blockTime (Int64.quot blockTime MsgProcDelayRatio).

Definition maxDeflection (blockTime : time.Duration) : time.Duration :=
  Int64.quot (idealDelay blockTime) DeflectionRatio.

(** [d] lies in the closed band around the ideal delay. *)
Definition inBand (blockTime d : time.Duration) : Prop :=
  idealDelay blockTime - maxDeflection blockTime <= d
  <= idealDelay blockTime + maxDeflection blockTime.

(** A store as the tests mock it. *)
Definition mockStore (genesis : time.Time) (blockTime : time.Duration)
    (loadErr paramsErr : error) : Store :=
  {| Load := ({| GenesisTime := genesis |}, loadErr);
     LoadConsensusParams := fun _ =>
       ({| Block := {| BlockTime := blockTime |} |}, paramsErr) |}.

(** The genesis time and the current block of the tests: height 10, at
    [d] after genesis. *)
Definition testGenesis : time.Time := time.mkTime 63900000000000000000.

Definition testBlock (d : time.Duration) : Block_ :=
  {| Height := 10; Time := time.Add testGenesis d |}.

End state.

(** The drift of the chain against its schedule as [CalculateDelay]
    measures it, before the subtraction is reduced to an [int64]: the
    time since genesis minus the expected duration. *)
Definition scheduleDrift (st : state.State) (cp : state.ConsensusParams)
    (blk : state.Block_) : Z :=
  time.Sub (state.Time blk) (state.GenesisTime st)
  - Int64.mul (time.Nanoseconds (state.BlockTime (state.Block cp)))
              (Int64.sub (state.Height blk) 1).

(** [x] brought into [lo .. hi]. *)
Definition clamp (lo hi x : Z) : Z := Z.max lo (Z.min hi x).

(* ===================================================================== *)
(** ** Bytes, panics *)
(* ===================================================================== *)

Abbreviation byte := Byte.byte.

#[global] Instance byte_eq_dec : EqDecision byte := Byte.byte_eq_dec.
#[global] Instance byte_countable : Countable byte :=
  inj_countable Byte.to_N Byte.of_N Byte.of_to_N.

(** [len(b)] as a Go [int]. *)
Definition len (b : list byte) : Z := Z.of_nat (length b).

(** The result of code that may panic. *)
Inductive outcome (A : Type) : Type :=
| Done (a : A)
| Panic (reason : string).
Arguments Done {A} a.
Arguments Panic {A} reason.

(** [make([]byte, n)] *)
Definition make (n : nat) : list byte := replicate n Byte.x00.

(** What [Read] leaves in the buffer it was handed: the bytes the
    transport stored overwrite the front of the buffer, whose length
    does not change. *)
Definition store (buf data : list byte) : list byte :=
  take (length buf) data ++ drop (length data) buf.

(** [buf[:n]]: a run-time panic when [n] is outside [0 .. cap(buf)]. *)
Definition slice_to (buf : list byte) (n : Z) : outcome (list byte) :=
  if (0 <=? n) && (n <=? len buf) then Done (take (Z.to_nat n) buf)
  else Panic "runtime error: slice bounds out of range".

(* ===================================================================== *)
(** ** Package [service]: the lifecycle of a service *)
(* ===================================================================== *)

Module service.

(** Modelled from the spec: [libs/service] ([BaseService]) is not among
    the sources.  The spec gives the lifecycle states, [Start] as the
    transition Created -> Running, [Stop] as the transition
    Running -> Stopped, Stopped as terminal, and the cancellation
    signal ([Quit]) as fired by stopping. *)
Inductive Lifecycle := Created | Starting | Running | Stopping | Stopped.

#[global] Instance Lifecycle_eq_dec : EqDecision Lifecycle.
Proof. solve_decision. Defined.

Record LogEntry := { level : string; text : string }.

Record BaseService := {
  Logger : list LogEntry;
  state : Lifecycle
}.

Definition NewBaseService : BaseService :=
  {| Logger := []; state := Created |}.

Definition IsRunning (bs : BaseService) : bool :=
  bool_decide (state bs = Running).

(** Whether the channel returned by [Quit()] is closed. *)
Definition QuitClosed (bs : BaseService) : bool :=
  bool_decide (state bs = Stopped).

Definition setState (s : Lifecycle) (bs : BaseService) : BaseService :=
  {| Logger := Logger bs; state := s |}.

(** Modelled from the spec: the [OnStart] hook of the base service
    itself; the spec gives [Start] no failure of its own, the hook
    reports none. *)
Definition OnStart (bs : BaseService) : error := None.

Definition log (lvl txt : string) (bs : BaseService) : BaseService :=
  {| Logger := Logger bs ++ [ {| level := lvl; text := txt |} ];
     state := state bs |}.

End service.

(* ===================================================================== *)
(** ** Interfaces the peer consumes *)
(* ===================================================================== *)

(** [reflect.Type], by the name of the type. *)
Abbreviation reflect_Type := string (only parsing).

(** [proto.Message], with the optional [types.Wrapper] and
    [types.Unwrapper] interfaces of the message.  [Unmarshal b m] is the
    content of [m] after [proto.Unmarshal(b, m)] and the error it
    returns. *)
Class ProtoMessage (M : Type) := {
  getMsgType : M -> reflect_Type;
  Marshal : M -> list byte * error;
  Unmarshal : list byte -> M -> M * error;
  (** [msg.(types.Wrapper)]: [Some (w.Wrap())] when implemented *)
  asWrapper : M -> option M;
  (** [msg.(types.Unwrapper)]: [Some (w.Unwrap())] when implemented *)
  asUnwrapper : M -> option (M * error)
}.

(** The transport [Connection] of a peer, in state-passing style.
    [Read id size c] is what [Read(id, buf)] returns for a buffer of
    [size] bytes: [n], the error, and the bytes stored into the buffer. *)
Class Connection (C : Type) := {
  Read : byte -> nat -> C -> (Z * error * list byte) * C;
  Write : byte -> list byte -> C -> (Z * error) * C;
  SetWriteDeadline : time.Time -> C -> C;
  Close : string -> C -> C;
  FlushAndClose : string -> C -> C
}.

(* ===================================================================== *)
(** ** The pending-metrics cache and the metrics sink *)
(* ===================================================================== *)

Record peerPendingMetricsCacheEntry := {
  label : string;
  pendingSendBytes : Z;
  pendingRecvBytes : Z
}.

(** Modelled from the spec: [p2p/metrics.go] (the cache type with
    [newPeerPendingMetricsCache], [AddPendingSendBytes] and
    [AddPendingRecvBytes]) is not among the sources.  The spec: a mapping
    message type -> {pendingSendBytes, pendingRecvBytes}, mutated under a
    mutex; an addition adds the byte count to the entry of the message
    type.  [mtx] tells whether the mutex is held. *)
Record peerPendingMetricsCache := {
  mtx : bool;
  perMessageCache : gmap string peerPendingMetricsCacheEntry
}.

Definition newPeerPendingMetricsCache : peerPendingMetricsCache :=
  {| mtx := false; perMessageCache := ∅ |}.

(** Modelled from the spec: the label of a message type is derived from
    the type alone; here it is the name of the type. *)
Definition buildLabel (msgType : reflect_Type) : string := msgType.

(** Modelled from the spec (see [peerPendingMetricsCache]).  The mutex is
    taken and released around the update. *)
Definition AddPendingSendBytes (msgType : reflect_Type) (addBytes : Z)
    (c : peerPendingMetricsCache) : peerPendingMetricsCache :=
  {| mtx := mtx c;
     perMessageCache :=
       match perMessageCache c !! msgType with
       | Some entry =>
           <[msgType := {| label := label entry;
                           pendingSendBytes :=
                             Int64.add (pendingSendBytes entry) addBytes;
                           pendingRecvBytes := pendingRecvBytes entry |}]>
             (perMessageCache c)
       | None =>
           <[msgType := {| label := buildLabel msgType;
                           pendingSendBytes := addBytes;
                           pendingRecvBytes := 0 |}]>
             (perMessageCache c)
       end |}.

(** Modelled from the spec (see [peerPendingMetricsCache]). *)
Definition AddPendingRecvBytes (msgType : reflect_Type) (addBytes : Z)
    (c : peerPendingMetricsCache) : peerPendingMetricsCache :=
  {| mtx := mtx c;
     perMessageCache :=
       match perMessageCache c !! msgType with
       | Some entry =>
           <[msgType := {| label := label entry;
                           pendingSendBytes := pendingSendBytes entry;
                           pendingRecvBytes :=
                             Int64.add (pendingRecvBytes entry) addBytes |}]>
             (perMessageCache c)
       | None =>
           <[msgType := {| label := buildLabel msgType;
                           pendingSendBytes := 0;
                           pendingRecvBytes := addBytes |}]>
             (perMessageCache c)
       end |}.

(** The pending counts the cache holds for a message type (0 without an
    entry). *)
Definition pendingSendOf (msgType : reflect_Type)
    (c : peerPendingMetricsCache) : Z :=
  if perMessageCache c !! msgType is Some entry then pendingSendBytes entry
  else 0.

Definition pendingRecvOf (msgType : reflect_Type)
    (c : peerPendingMetricsCache) : Z :=
  if perMessageCache c !! msgType is Some entry then pendingRecvBytes entry
  else 0.

(** A labelled cumulative counter of the metrics sink, as the calls
    [With("message_type", l).Add(float64(v))] it has received, oldest
    first; [v] is the integer before its conversion. *)
Definition Counter := list (string * Z).

Definition Counter_Add (l : string) (v : Z) (c : Counter) : Counter :=
  c ++ [(l, v)].

(** The cumulative value a counter holds for a label. *)
Fixpoint Counter_value (l : string) (c : Counter) : Z :=
  match c with
  | [] => 0
  | (l', v) :: c' =>
      (if bool_decide (l' = l) then v else 0) + Counter_value l c'
  end.

(** [Metrics], with the two counters the peer writes per message type. *)
Record Metrics := {
  MessageSendBytesTotal : Counter;
  MessageReceiveBytesTotal : Counter
}.

Definition NopMetrics : Metrics :=
  {| MessageSendBytesTotal := []; MessageReceiveBytesTotal := [] |}.

(* ===================================================================== *)
(** ** Package [p2p]: the peer *)
(* ===================================================================== *)

(** [na.NetAddr] *)
Record NetAddr := { NetAddr_ID : string; IP : string; Port : Z }.

(** [ni.Default], with the fields the peer reads. *)
Record Default := {
  DefaultNodeID : string;
  ListenAddr : string;
  Channels : list byte
}.

(** A value of the interface [ni.NodeInfo]: what its methods [ID()] and
    [NetAddr()] return, and the [ni.Default] it holds, if it is one (for
    the type assertion [nodeInfo.(ni.Default)]). *)
Record NodeInfo := {
  NodeInfo_ID : string;
  NodeInfo_NetAddr : option NetAddr * error;
  NodeInfo_Default : option Default
}.

(** The body of the loop of the metrics reporter over the cache, for one
    entry: a positive pending count is added to the counter of the
    entry's label and reset. *)
Definition flushEntry (entry : peerPendingMetricsCacheEntry) (m : Metrics)
  : peerPendingMetricsCacheEntry * Metrics :=
  let '(entry, m) :=
    if 0 <? pendingSendBytes entry then
      ({| label := label entry; pendingSendBytes := 0;
          pendingRecvBytes := pendingRecvBytes entry |},
       {| MessageSendBytesTotal :=
            Counter_Add (label entry) (pendingSendBytes entry)
                        (MessageSendBytesTotal m);
          MessageReceiveBytesTotal := MessageReceiveBytesTotal m |})
    else (entry, m) in
  if 0 <? pendingRecvBytes entry then
    ({| label := label entry; pendingSendBytes := pendingSendBytes entry;
        pendingRecvBytes := 0 |},
     {| MessageSendBytesTotal := MessageSendBytesTotal m;
        MessageReceiveBytesTotal :=
          Counter_Add (label entry) (pendingRecvBytes entry)
                      (MessageReceiveBytesTotal m) |})
  else (entry, m).

(** [for _, entry := range perMessageCache], the entries in the order the
    iteration visits them. *)
Fixpoint flushEntries
    (entries : list (string * peerPendingMetricsCacheEntry)) (m : Metrics)
  : list (string * peerPendingMetricsCacheEntry) * Metrics :=
  match entries with
  | [] => ([], m)
  | (k, entry) :: rest =>
      let '(entry, m) := flushEntry entry m in
      let '(rest, m) := flushEntries rest m in
      ((k, entry) :: rest, m)
  end.

(** [mtx.Lock()]: [None] when the mutex is held, the caller waits. *)
Definition Lock (c : peerPendingMetricsCache)
  : option peerPendingMetricsCache :=
  if mtx c then None
  else Some {| mtx := true; perMessageCache := perMessageCache c |}.

Definition Unlock (c : peerPendingMetricsCache) : peerPendingMetricsCache :=
  {| mtx := false; perMessageCache := perMessageCache c |}.

(** The loop over the cache, between [Lock] and [Unlock]: the cache,
    whose entries the loop body has written in place, and the counters
    when the loop is over.  The loop does not touch the mutex. *)
Definition rangeCache
    (order : list (string * peerPendingMetricsCacheEntry))
    (c : peerPendingMetricsCache) (m : Metrics)
  : peerPendingMetricsCache * Metrics :=
  let '(entries, m) := flushEntries order m in
  ({| mtx := mtx c; perMessageCache := list_to_map entries |}, m).

(** The function literal the metrics reporter calls on each tick: one
    critical section around the loop over the cache ([Unlock] is
    deferred).  [order] is the order in which the iteration visits the
    map. *)
Definition flushCacheIn
    (order : list (string * peerPendingMetricsCacheEntry))
    (c : peerPendingMetricsCache) (m : Metrics)
  : option (peerPendingMetricsCache * Metrics) :=
  c ← Lock c;
  let '(c, m) := rangeCache order c m in
  Some (Unlock c, m).

Definition flushCache (c : peerPendingMetricsCache) (m : Metrics)
  : option (peerPendingMetricsCache * Metrics) :=
  flushCacheIn (map_to_list (perMessageCache c)) c m.

(** The entry as the body of the loop leaves it (the counters handed to
    [flushEntry] do not matter for it). *)
Definition flushed (entry : peerPendingMetricsCacheEntry)
  : peerPendingMetricsCacheEntry :=
  (flushEntry entry NopMetrics).1.





(** The pending bytes the entries hold under a label. *)
Fixpoint pendingUnder (f : peerPendingMetricsCacheEntry -> Z) (l : string)
    (entries : list (string * peerPendingMetricsCacheEntry)) : Z :=
  match entries with
  | [] => 0
  | (_, entry) :: rest =>
      (if bool_decide (label entry = l) then f entry else 0)
      + pendingUnder f l rest
  end.


(** The invariant of the cache: no count is negative. *)
Definition nonNegative (c : peerPendingMetricsCache) : Prop :=
  forall k entry, perMessageCache c !! k = Some entry ->
    0 <= pendingSendBytes entry /\ 0 <= pendingRecvBytes entry.

(** [peerConfig], with the fields [wrapPeer] reads. *)
Module peerConfig.
Record t (R M : Type) := {
  outbound : bool;
  isPersistent : option (option NetAddr -> bool);
  reactorsByStreamID : gmap byte R;
  msgTypeByStreamID : gmap byte M;
  metrics : Metrics
}.
Arguments outbound {R M} _.
Arguments isPersistent {R M} _.
Arguments reactorsByStreamID {R M} _.
Arguments msgTypeByStreamID {R M} _.
Arguments metrics {R M} _.
End peerConfig.

Section Peer.

Context {C M R : Type} `{!Connection C} `{!ProtoMessage M}.

(** [Src] is the peer that read the message, named here by its ID (the
    peer itself is handed to [Receive] next to the envelope); [R] is the
    type of reactors. *)
Record Envelope := {
  ChannelID : byte;
  Src : string;
  Message : M
}.

Record peerConn := {
  outbound : bool;
  persistent : bool;
  conn : C;
  socketAddr : option NetAddr
}.

Definition newPeerConn (outbound persistent : bool) (conn : C)
    (socketAddr : option NetAddr) : peerConn :=
  {| outbound := outbound;
     persistent := persistent;
     conn := conn;
     socketAddr := socketAddr |}.

(** The peer.  The user-data store and the cached IP are left out. *)
Record peer := {
  BaseService : service.BaseService;
  peerConn_ : peerConn;
  nodeInfo : NodeInfo;
  channels : list byte;
  metrics : Metrics;
  pendingMetrics : peerPendingMetricsCache;
  removalAttemptFailed : bool
}.

(** The goroutines a [go] statement starts. *)
Inductive goroutine :=
| go_readLoop (reactorsByStreamID : gmap byte R)
              (msgTypeByStreamID : gmap byte M)
| go_metricsReporter.

Definition PeerOption := peer -> peer.

(** Field updates. *)
Definition withBaseService (bs : service.BaseService) (p : peer) : peer :=
  {| BaseService := bs; peerConn_ := peerConn_ p; nodeInfo := nodeInfo p;
     channels := channels p; metrics := metrics p;
     pendingMetrics := pendingMetrics p;
     removalAttemptFailed := removalAttemptFailed p |}.

Definition withConn (c : C) (p : peer) : peer :=
  {| BaseService := BaseService p;
     peerConn_ := {| outbound := outbound (peerConn_ p);
                     persistent := persistent (peerConn_ p);
                     conn := c;
                     socketAddr := socketAddr (peerConn_ p) |};
     nodeInfo := nodeInfo p; channels := channels p; metrics := metrics p;
     pendingMetrics := pendingMetrics p;
     removalAttemptFailed := removalAttemptFailed p |}.

Definition withMetrics (m : Metrics) (p : peer) : peer :=
  {| BaseService := BaseService p; peerConn_ := peerConn_ p;
     nodeInfo := nodeInfo p; channels := channels p; metrics := m;
     pendingMetrics := pendingMetrics p;
     removalAttemptFailed := removalAttemptFailed p |}.

Definition withPendingMetrics (c : peerPendingMetricsCache) (p : peer)
  : peer :=
  {| BaseService := BaseService p; peerConn_ := peerConn_ p;
     nodeInfo := nodeInfo p; channels := channels p; metrics := metrics p;
     pendingMetrics := c;
     removalAttemptFailed := removalAttemptFailed p |}.

Definition logf (lvl txt : string) (p : peer) : peer :=
  withBaseService (service.log lvl txt (BaseService p)) p.

Definition IsRunning (p : peer) : bool := service.IsRunning (BaseService p).

Definition PeerMetrics (metrics : Metrics) : PeerOption :=
  fun p => withMetrics metrics p.

(** [newPeer]: the peer and the goroutines it has started.  The
    assertion [nodeInfo.(ni.Default)] panics on another node info. *)
Definition newPeer (pc : peerConn) (nodeInfo : NodeInfo)
    (reactorsByStreamID : gmap byte R) (msgTypeByStreamID : gmap byte M)
    (options : list PeerOption) : outcome (peer * list goroutine) :=
  match NodeInfo_Default nodeInfo with
  | None => Panic "interface conversion: ni.NodeInfo is not ni.Default"
  | Some d =>
      let p := {| BaseService := service.NewBaseService;
                  peerConn_ := pc;
                  nodeInfo := nodeInfo;
                  channels := Channels d;
                  metrics := NopMetrics;
                  pendingMetrics := newPeerPendingMetricsCache;
                  removalAttemptFailed := false |} in
      let started := [go_readLoop reactorsByStreamID msgTypeByStreamID] in
      let p := withBaseService service.NewBaseService p in
      let p := foldl (fun p option => option p) p options in
      Done (p, started)
  end.

Definition ID (p : peer) : string := NodeInfo_ID (nodeInfo p).
Definition IsOutbound (p : peer) : bool := outbound (peerConn_ p).
Definition IsPersistent (p : peer) : bool := persistent (peerConn_ p).
Definition SocketAddr (p : peer) : option NetAddr := socketAddr (peerConn_ p).
Definition Conn (p : peer) : C := conn (peerConn_ p).

(** [HasChannel]: the scan of [p.channels]. *)
Fixpoint scanChannels (chs : list byte) (chID : byte) : bool :=
  match chs with
  | [] => false
  | ch :: chs' => if bool_decide (ch = chID) then true
                  else scanChannels chs' chID
  end.

Definition HasChannel (p : peer) (chID : byte) : bool :=
  scanChannels (channels p) chID.

(** *** The send path *)

Definition send (streamID : byte) (msg : M)
    (sendFunc : byte -> list byte -> C -> (Z * error) * C) (p : peer)
  : bool * peer :=
  if negb (IsRunning p) then (false, p)
  else if negb (HasChannel p streamID) then (false, p)
  else
    let msgType := getMsgType msg in
    let msg := if asWrapper msg is Some w then w else msg in
    let '(msgBytes, err) := Marshal msg in
    if err is Some _ then (false, logf "error" "Can't marshal msg" p)
    else
      let '((n, err), c) := sendFunc streamID msgBytes (Conn p) in
      let p := withConn c p in
      if err is Some _ then
        (false, logf "error" "Failed to send msg to stream" p)
      else if negb (n =? len msgBytes) then
        (false, logf "error" "Message not sent completely" p)
      else
        (true,
         withPendingMetrics
           (AddPendingSendBytes msgType n (pendingMetrics p)) p).

(** [now] is what [time.Now()] returns. *)
Definition Send (e : Envelope) (now : time.Time) (p : peer) : bool * peer :=
  let p := withConn
             (SetWriteDeadline (time.Add now (10 * time.Second)) (Conn p))
             p in
  send (ChannelID e) (Message e) Write p.

Definition TrySend (e : Envelope) (now : time.Time) (p : peer)
  : bool * peer :=
  let p := withConn
             (SetWriteDeadline (time.Add now (100 * time.Millisecond))
                               (Conn p))
             p in
  send (ChannelID e) (Message e) Write p.

(** *** Lifecycle *)

Definition OnStart (p : peer) : error * peer * list goroutine :=
  if service.OnStart (BaseService p) is Some err then (Some err, p, [])
  else (None, p, [go_metricsReporter]).

Definition OnStop (p : peer) : peer :=
  withConn (Close "stopping peer" (Conn p)) p.

Definition FlushStop (p : peer) : peer :=
  withConn (FlushAndClose "stopping peer" (Conn p)) p.

Definition setState (s : service.Lifecycle) (p : peer) : peer :=
  withBaseService (service.setState s (BaseService p)) p.

(** Modelled from the spec: [Start] of [libs/service] is not among the
    sources.  Created -> Running around the [OnStart] hook of the
    peer; a failing hook leaves the service Created; in another state
    nothing is started. *)
Definition Start (p : peer) : error * peer * list goroutine :=
  match service.state (BaseService p) with
  | service.Created =>
      let '(err, p, started) := OnStart (setState service.Starting p) in
      if err is Some _ then (err, setState service.Created p, started)
      else (None, setState service.Running p, started)
  | _ => (Some "already started or stopped", p, [])
  end.

(** Modelled from the spec: [Stop] of [libs/service] is not among the
    sources.  Running -> Stopped around the [OnStop] hook of the peer,
    which closes the connection; in another state nothing happens. *)
Definition Stop (p : peer) : peer :=
  match service.state (BaseService p) with
  | service.Running =>
      setState service.Stopped (OnStop (setState service.Stopping p))
  | _ => p
  end.

(** *** The removal flag, the node info, the logger *)

Definition SetRemovalFailed (p : peer) : peer :=
  {| BaseService := BaseService p; peerConn_ := peerConn_ p;
     nodeInfo := nodeInfo p; channels := channels p; metrics := metrics p;
     pendingMetrics := pendingMetrics p;
     removalAttemptFailed := true |}.

Definition GetRemovalFailed (p : peer) : bool := removalAttemptFailed p.

(** [p.NodeInfo()] *)
Definition NodeInfo_ (p : peer) : NodeInfo := nodeInfo p.

(** [SetLogger]: the peer logs to [l] from now on; a logger is given by
    the entries written to it. *)
Definition SetLogger (l : list service.LogEntry) (p : peer) : peer :=
  withBaseService {| service.Logger := l;
                     service.state := service.state (BaseService p) |} p.

(** *** Reactors

    [reactor.Receive(Envelope{ChannelID, Src: p, Message})] runs inside
    the read loop and is handed the peer itself, as a [Peer].  What a
    reactor does with it is not in [peer.go]; it reaches the peer through
    the methods of [Peer] only.  [call] lists the methods that write the
    peer: of [Peer], [Send], [TrySend], [FlushStop], [SetRemovalFailed]
    and, through [Conn()], any use of the connection; of the embedded
    [service.Service], the lifecycle operations [Start] and [Stop] and
    the methods [peer.go] implements for it, [OnStart], [OnStop] and
    [SetLogger].  The methods that only read the peer are left out, and
    so are [Get] and [Set], which use the user-data store alone. *)
Inductive call :=
| CallSend (e : Envelope) (now : time.Time)
| CallTrySend (e : Envelope) (now : time.Time)
| CallStart
| CallStop
| CallOnStart
| CallOnStop
| CallFlushStop
| CallSetLogger (l : list service.LogEntry)
| CallSetRemovalFailed
| CallConn (use : C -> C).

(** Whether a call marks the peer. *)
Definition marks (c : call) : bool :=
  if c is CallSetRemovalFailed then true else false.

(** The peer after a call (the metrics reporter a [Start] launches is a
    goroutine of its own: its ticks are not part of the call). *)
Definition performCall (c : call) (p : peer) : peer :=
  match c with
  | CallSend e now => (Send e now p).2
  | CallTrySend e now => (TrySend e now p).2
  | CallStart => (Start p).1.2
  | CallStop => Stop p
  | CallOnStart => (OnStart p).1.2
  | CallOnStop => OnStop p
  | CallFlushStop => FlushStop p
  | CallSetLogger l => SetLogger l p
  | CallSetRemovalFailed => SetRemovalFailed p
  | CallConn use => withConn (use (Conn p)) p
  end.

Definition performCalls (calls : list call) (p : peer) : peer :=
  foldl (fun p c => performCall c p) p calls.

(** The interface [Reactor], as far as the peer uses it: [Receive r e p]
    is the sequence of calls the reactor [r] makes on the peer [p] while
    it handles the envelope [e]; it may depend on all of the peer.  A
    value of [R] stands for a reactor in the state it is in when the read
    loop visits it. *)
Class Reactor := {
  Receive : R -> Envelope -> peer -> list call
}.

Context `{!Reactor}.

(** The peer after the reactor has handled the envelope. *)
Definition handle (reactor : R) (e : Envelope) (p : peer) : peer :=
  performCalls (Receive reactor e p) p.

(** *** The read loop *)

(** How one turn of the loop over the streams ends: it goes on with
    the next stream, [readLoop] returns, or the process panics.  The
    envelopes handed to reactors so far are carried along. *)
Inductive iteration :=
| Next (p : peer) (received : list (R * Envelope))
| Return (p : peer) (received : list (R * Envelope))
| Panicked (reason : string).

(** The body of [for streamID, reactor := range reactorsByStreamID]. *)
Definition readStream (msgTypeByStreamID : gmap byte M)
    (streamID : byte) (reactor : R)
    (p : peer) (received : list (R * Envelope)) : iteration :=
  let buf := make 1024 in
  let '((n, err, data), c) := Read streamID (length buf) (Conn p) in
  let buf := store buf data in
  let p := withConn c p in
  if err is Some _ then
    Return (Stop (logf "debug" "Error reading from stream" p)) received
  else if n =? 0 then Next p received
  else
    match msgTypeByStreamID !! streamID with
    | None => Panicked "reflect: call of reflect.Value.IsNil on zero Value"
    | Some mt =>
        match slice_to buf n with
        | Panic reason => Panicked reason
        | Done b =>
            let '(msg, err) := Unmarshal b mt in
            if err is Some _ then Panicked "unmarshaling message"
            else
              let receive (msg : M) :=
                let p := withPendingMetrics
                           (AddPendingRecvBytes (getMsgType msg) n
                                                (pendingMetrics p)) p in
                let e := {| ChannelID := streamID;
                            Src := ID p;
                            Message := msg |} in
                Next (handle reactor e p) (received ++ [(reactor, e)]) in
              match asUnwrapper msg with
              | Some (msg, err) =>
                  if err is Some _ then Panicked "unwrapping message"
                  else receive msg
              | None => receive msg
              end
        end
    end.

Fixpoint rangeStreams (msgTypeByStreamID : gmap byte M)
    (streams : list (byte * R))
    (p : peer) (received : list (R * Envelope)) : iteration :=
  match streams with
  | [] => Next p received
  | (streamID, reactor) :: rest =>
      match readStream msgTypeByStreamID streamID reactor p received with
      | Next p received => rangeStreams msgTypeByStreamID rest p received
      | stop => stop
      end
  end.

(** [readLoop] over finitely many turns of its outer loop; each element
    of [passes] is the order in which one turn visits
    [reactorsByStreamID].  [Next] means the loop is still running
    after these turns. *)
Fixpoint readLoop (passes : list (list (byte * R)))
    (msgTypeByStreamID : gmap byte M)
    (p : peer) (received : list (R * Envelope)) : iteration :=
  match passes with
  | [] => Next p received
  | streams :: passes' =>
      if service.QuitClosed (BaseService p) then Return p received
      else
        match rangeStreams msgTypeByStreamID streams p received with
        | Next p received => readLoop passes' msgTypeByStreamID p received
        | stop => stop
        end
  end.

(** *** The metrics reporter *)

(** One tick, as far as the pending-metrics cache and the two
    per-message counters go (the gauges computed from the connection
    status touch neither): the function literal runs on the cache and
    the counters of the peer.  [order] is the order in which the
    iteration visits the map; [None] when the tick waits for the
    mutex. *)
Definition metricsReporterTick
    (order : list (string * peerPendingMetricsCacheEntry)) (p : peer)
  : option peer :=
  '(c, m) ← flushCacheIn order (pendingMetrics p) (metrics p);
  Some (withMetrics m (withPendingMetrics c p)).

(** *** Wiring *)

Definition wrapPeer (c : C) (ni : NodeInfo) (cfg : peerConfig.t R M)
    (socketAddr : option NetAddr) : outcome (peer * list goroutine) :=
  let persistent := false in
  let persistent :=
    match peerConfig.isPersistent cfg with
    | Some isPersistent =>
        if peerConfig.outbound cfg then isPersistent socketAddr
        else
          let '(selfReportedAddr, err) := NodeInfo_NetAddr ni in
          if err is None then isPersistent selfReportedAddr
          else persistent
    | None => persistent
    end in
  let peerConn := newPeerConn (peerConfig.outbound cfg) persistent c
                              socketAddr in
  newPeer peerConn ni
          (peerConfig.reactorsByStreamID cfg)
          (peerConfig.msgTypeByStreamID cfg)
          [PeerMetrics (peerConfig.metrics cfg)].

End Peer.

Section PeerOperations.

Context {C M R : Type} `{!Connection C} `{!ProtoMessage M}.
Context {handlers : @Reactor C M R}.

(** The peer an iteration ends with and the envelopes handed over, when
    it does not end in a panic. *)
Definition iterationPeer (it : @iteration C M R) : option (@peer C) :=
  match it with
  | Next p _ | Return p _ => Some p
  | Panicked _ => None
  end.

Definition iterationReceived (it : @iteration C M R)
  : option (list (R * @Envelope M)) :=
  match it with
  | Next _ received | Return _ received => Some received
  | Panicked _ => None
  end.

(** [IN] holds of an iteration that goes on, [IR] of one that returns. *)
Definition iterationHolds
    (IN IR : @peer C -> list (R * @Envelope M) -> Prop)
    (it : @iteration C M R) : Prop :=
  match it with
  | Next p received => IN p received
  | Return p received => IR p received
  | Panicked _ => True
  end.

(** What is fixed when the peer is built. *)
Definition sameIdentity (p p' : @peer C) : Prop :=
  channels p' = channels p /\
  nodeInfo p' = nodeInfo p /\
  IsOutbound p' = IsOutbound p /\
  IsPersistent p' = IsPersistent p /\
  SocketAddr p' = SocketAddr p.

(** The operations on a peer: a call of one of its methods by the
    switch or a reactor, the read loop over some turns, one tick of the
    metrics reporter. *)
Inductive operation :=
| OpCall (c : @call C M)
| OpReadLoop (passes : list (list (byte * R)))
             (msgTypeByStreamID : gmap byte M)
| OpTick.

(** The peer after an operation; [None] when the operation panics or
    waits for the mutex. *)
Definition perform (op : operation) (p : @peer C) : option (@peer C) :=
  match op with
  | OpCall c => Some (performCall (R := R) c p)
  | OpReadLoop passes msgTypeByStreamID =>
      iterationPeer (readLoop passes msgTypeByStreamID p [])
  | OpTick =>
      metricsReporterTick (map_to_list (perMessageCache (pendingMetrics p))) p
  end.

Fixpoint performAll (ops : list operation) (p : @peer C)
  : option (@peer C) :=
  match ops with
  | [] => Some p
  | op :: ops' => p' ← perform op p; performAll ops' p'
  end.

Definition isSetRemovalFailed (op : operation) : bool :=
  if op is OpCall CallSetRemovalFailed then true else false.

(** The reactors the read-loop operations among [ops] visit. *)
Definition reactorsOf (ops : list operation) : list R :=
  flat_map (fun op => if op is OpReadLoop passes _
                      then snd <$> concat passes else []) ops.

(** The reactor never marks the peer it is handed. *)
Definition neverMarks (r : R) : Prop :=
  forall e p, CallSetRemovalFailed ∉ Receive r e p.

End PeerOperations.

(* ===================================================================== *)
(** ** The e2e runner: [Save] and [copyFile] *)
(* ===================================================================== *)

Module runner.

(** [e2e.Node] and [e2e.Testnet], with the fields [Save] reads. *)
Record Node := { Node_Name : string }.

Record Testnet := {
  Name : string;
  Dir : string;
  File : string;
  Nodes : list Node
}.

(** The calls [Save] makes on its environment: the logger, the clock,
    the file system, docker compose, the buffered writer of a file.
    Files are named by their path. *)
Inductive call :=
| LogInfo (msg detail : string)
| LogError (detail : string)
| Now
| MkdirAll (path : string)
| ExecComposeOutput (dir : string) (args : list string)
| Create (path : string)
| Open (path : string)
| WriteString (file : string) (s : string)
| Flush (file : string)
| Copy (dst src : string)
| Close (file : string).

(** What a call returns: its error, and for the calls that return one, a
    byte slice ([ExecComposeOutput]) or the formatted time ([Now]
    followed by [Format("20060102_150405")]). *)
Record response := {
  err : error;
  output : list byte;
  stamp : string
}.

(** The character ["|"] and the string of one line feed. *)
Definition pipe : Ascii.ascii := Ascii.ascii_of_nat 124.
Definition newline : string := String (Ascii.ascii_of_nat 10) EmptyString.

(** [strings.SplitN(line, "|", 2)] when it yields two parts: the text
    before the first ["|"] and the text after it; [None] when the line
    has no ["|"] (one part). *)
Fixpoint cut (line : string) : option (string * string) :=
  match line with
  | EmptyString => None
  | String c rest =>
      if Ascii.eqb c pipe then Some (EmptyString, rest)
      else match cut rest with
           | Some (before, after) => Some (String c before, after)
           | None => None
           end
  end.

Definition isCompose (c : call) : bool :=
  if c is ExecComposeOutput _ _ then true else false.

Definition isCopy (c : call) : bool :=
  if c is Copy _ _ then true else false.

Definition isLogError (c : call) : bool :=
  if c is LogError _ then true else false.

(** The path of the file a call opens, and of the file a call closes. *)
Definition pathOpened (c : call) : option string :=
  match c with
  | Create path | Open path => Some path
  | _ => None
  end.

Definition pathClosed (c : call) : option string :=
  if c is Close file then Some file else None.

(** The files closed by the calls [new], in order. *)
Definition closed (new : list call) : list string := omap pathClosed new.

(** The calls whose error [Save] looks at ([Close] is deferred and its
    result dropped; the logger returns nothing). *)
Definition isChecked (c : call) : bool :=
  match c with
  | LogInfo _ _ | LogError _ | Now | Close _ => false
  | _ => true
  end.

Section Save.

(** The environment answers a call knowing the calls made so far. *)
Variable env : list call -> call -> response.

(** [filepath.Join], [strings.TrimSpace], and the lines a
    [bufio.Scanner] yields for a byte slice together with the error
    [scanner.Err()] reports after the last of them. *)
Variable Join : list string -> string.
Variable TrimSpace : string -> string.
Variable scanLines : list byte -> list string * error.

(** A computation reads the calls made so far and extends them. *)
Definition Run (A : Type) : Type := list call -> A * list call.

Definition ret {A} (a : A) : Run A := fun h => (a, h).

Definition bind {A B} (m : Run A) (k : A -> Run B) : Run B :=
  fun h => let '(a, h') := m h in k a h'.

Definition perform (c : call) : Run response :=
  fun h => (env h c, h ++ [c]).

Local Notation "x <- m ;; k" := (bind m (fun x => k))
  (at level 100, m at next level, right associativity).

(** [copyFile]; the two deferred [Close] calls run last in, first out. *)
Definition copyFile (source dest : string) : Run error :=
  r <- perform (Open source) ;;
  if err r is Some e then ret (Some e) else
  let manifestFile := Join [dest; "manifest.toml"] in
  r <- perform (Create manifestFile) ;;
  if err r is Some e then
    _ <- perform (Close source) ;; ret (Some e)
  else
  r <- perform (Copy manifestFile source) ;;
  _ <- perform (Close manifestFile) ;;
  _ <- perform (Close source) ;;
  ret (err r).

(** The loop over the scanned lines. *)
Fixpoint writeLines (logFile : string) (lines : list string) : Run error :=
  match lines with
  | [] => ret None
  | line :: rest =>
      match cut line with
      | Some (_, after) =>
          let strippedLine := TrimSpace after in
          r <- perform (WriteString logFile
                          (String.append strippedLine newline)) ;;
          if err r is Some e then
            _ <- perform (LogError "error writing to log file") ;;
            ret (Some e)
          else writeLines logFile rest
      | None => writeLines logFile rest
      end
  end.

(** The body of the loop over the nodes: the error it returns with, if
    any, and the file whose [Close] it has deferred, if any. *)
Definition saveNode (testnet : Testnet) (executionFolder : string)
    (node : Node) : Run (error * option string) :=
  r <- perform (ExecComposeOutput (Dir testnet)
                  ["pause"; Node_Name node]) ;;
  if err r is Some e then
    _ <- perform (LogError "error pausing container") ;; ret (Some e, None)
  else
  r <- perform (ExecComposeOutput (Dir testnet)
                  ["logs"; Node_Name node]) ;;
  let data := output r in
  if err r is Some e then
    _ <- perform (LogError "error getting logs from container") ;;
    ret (Some e, None)
  else
  let nodeFolder := Join [executionFolder; Node_Name node] in
  r <- perform (MkdirAll nodeFolder) ;;
  if err r is Some e then
    _ <- perform (LogError "error creating node folder") ;;
    ret (Some e, None)
  else
  let logFile := Join [nodeFolder; "docker.log"] in
  r <- perform (Create logFile) ;;
  if err r is Some e then
    _ <- perform (LogError "error creating log file") ;; ret (Some e, None)
  else
  let '(lines, scanErr) := scanLines data in
  e <- writeLines logFile lines ;;
  if e is Some _ then ret (e, Some logFile) else
  if scanErr is Some _ then
    _ <- perform (LogError "error scanning log file") ;;
    ret (scanErr, Some logFile)
  else
  r <- perform (Flush logFile) ;;
  if err r is Some e then
    _ <- perform (LogError "error flushing log file") ;;
    ret (Some e, Some logFile)
  else
  e <- copyFile (File testnet) executionFolder ;;
  if e is Some _ then
    _ <- perform (LogError "error copying manifest file") ;;
    ret (e, Some logFile)
  else ret (None, Some logFile).

(** The loop over the nodes; [deferred] is the stack of files whose
    [Close] is deferred to the return of [Save]. *)
Fixpoint saveNodes (testnet : Testnet) (executionFolder : string)
    (nodes : list Node) (deferred : list string)
  : Run (error * list string) :=
  match nodes with
  | [] => ret (None, deferred)
  | node :: rest =>
      saved <- saveNode testnet executionFolder node ;;
      let '(e, opened) := saved in
      let deferred := (if opened is Some f then [f] else []) ++ deferred in
      if e is Some _ then ret (e, deferred)
      else saveNodes testnet executionFolder rest deferred
  end.

(** The deferred calls, run when [Save] returns. *)
Fixpoint closeAll (deferred : list string) : Run unit :=
  match deferred with
  | [] => ret tt
  | f :: rest => _ <- perform (Close f) ;; closeAll rest
  end.

Definition Save (testnet : Testnet) : Run error :=
  _ <- perform (LogInfo "saving execution"
                        "saving e2e network execution information") ;;
  r <- perform Now ;;
  let timestamp := stamp r in
  let executionFolder :=
    Join ["networks_executions"; Name testnet; timestamp] in
  r <- perform (MkdirAll executionFolder) ;;
  if err r is Some e then
    _ <- perform (LogError "error creating executions folder") ;;
    ret (Some e)
  else
  saved <- saveNodes testnet executionFolder (Nodes testnet) [] ;;
  let '(e, deferred) := saved in
  _ <- (if e is Some _ then ret tt
        else _ <- perform (LogInfo "saved execution"
                             "finished saving execution information") ;;
             ret tt) ;;
  _ <- closeAll deferred ;;
  ret e.

(** The log file [Save] creates for a node. *)
Definition logFileOf (executionFolder : string) (node : Node) : string :=
  Join [Join [executionFolder; Node_Name node]; "docker.log"].

(** The folder [Save] works in when it starts after the calls [h]: the
    time stamp is the one the clock gives then. *)
Definition startCalls : list call :=
  [LogInfo "saving execution" "saving e2e network execution information";
   Now].

Definition executionFolderOf (testnet : Testnet) (h : list call) : string :=
  Join ["networks_executions"; Name testnet;
        stamp (env (h ++ [LogInfo "saving execution"
                            "saving e2e network execution information"]) Now)].

(** The calls a computation adds to [h]. *)
Definition added {A} (m : Run A) (h : list call) : list call :=
  drop (length h) (m h).2.

(** Every checked call among [new], made after [h], was answered
    without an error. *)
Definition allSucceeded (h new : list call) : Prop :=
  forall pre c post,
    new = pre ++ c :: post -> isChecked c = true ->
    err (env (h ++ pre) c) = None.

(** The files the calls [new], made after [h], opened with success, in
    order. *)
Fixpoint opened (h new : list call) : list string :=
  match new with
  | [] => []
  | c :: rest =>
      match pathOpened c, err (env h c) with
      | Some path, None => [path]
      | _, _ => []
      end ++ opened (h ++ [c]) rest
  end.

(** The scanner reported the error [e] for the bytes the call [c], one
    of the calls [new] made after [h], returned. *)
Definition scanFailedAt (c : call) (e : string) (h new : list call) : Prop :=
  exists pre post,
    new = pre ++ c :: post /\
    (scanLines (output (env (h ++ pre) c))).2 = Some e.

(** Some checked call among [new], made after [h], was answered with the
    error [e]. *)
Definition failedWith (e : string) (h new : list call) : Prop :=
  exists pre c post,
    new = pre ++ c :: post /\ isChecked c = true /\
    err (env (h ++ pre) c) = Some e.

End Save.

(** The call that asks docker for the logs of a node. *)
Definition logsCall (testnet : Testnet) (node : Node) : call :=
  ExecComposeOutput (Dir testnet) ["logs"; Node_Name node].

(** What docker is asked for a node, in order. *)
Definition composeCalls (testnet : Testnet) (node : Node) : list call :=
  [ExecComposeOutput (Dir testnet) ["pause"; Node_Name node];
   ExecComposeOutput (Dir testnet) ["logs"; Node_Name node]].

End runner.

(* ===================================================================== *)
(** ** Test doubles: a scripted connection and a small message family *)
(* ===================================================================== *)

(** A connection that answers [Read] from a script, answers [Write] by a
    fixed rule and records what it was asked to do. *)
Record mockConn := {
  reads : list (Z * error * list byte);
  writeResult : list byte -> Z * error;
  written : list (byte * list byte);
  deadline : option time.Time;
  closed : list string
}.

Definition mockConn_Read (id : byte) (size : nat) (c : mockConn)
  : (Z * error * list byte) * mockConn :=
  match reads c with
  | [] => ((0, None, []), c)
  | r :: rest =>
      (r, {| reads := rest; writeResult := writeResult c;
             written := written c; deadline := deadline c;
             closed := closed c |})
  end.

Definition mockConn_Write (id : byte) (b : list byte) (c : mockConn)
  : (Z * error) * mockConn :=
  (writeResult c b,
   {| reads := reads c; writeResult := writeResult c;
      written := written c ++ [(id, b)]; deadline := deadline c;
      closed := closed c |}).

Definition mockConn_SetWriteDeadline (t : time.Time) (c : mockConn)
  : mockConn :=
  {| reads := reads c; writeResult := writeResult c; written := written c;
     deadline := Some t; closed := closed c |}.

Definition mockConn_Close (reason : string) (c : mockConn) : mockConn :=
  {| reads := reads c; writeResult := writeResult c; written := written c;
     deadline := deadline c; closed := closed c ++ [reason] |}.

#[global] Instance mockConn_Connection : Connection mockConn := {|
  Read := mockConn_Read;
  Write := mockConn_Write;
  SetWriteDeadline := mockConn_SetWriteDeadline;
  Close := mockConn_Close;
  FlushAndClose := mockConn_Close
|}.

(** Rules for [writeResult]. *)
Definition writesAll (b : list byte) : Z * error := (len b, None).
Definition writesShort (b : list byte) : Z * error := (len b - 1, None).
Definition writeFails (b : list byte) : Z * error := (0, Some "timeout").

Definition newMockConn (reads : list (Z * error * list byte))
    (writeResult : list byte -> Z * error) : mockConn :=
  {| reads := reads; writeResult := writeResult; written := [];
     deadline := None; closed := [] |}.

(** Three proto3 messages and a nil message:
    [message Raw { bytes data = 1; }],
    [message Ping { bytes data = 1; }], which wraps into
    [message Packet { oneof sum { Ping ping = 1; } }],
    and a nil message, which [proto.Marshal] refuses. *)
Inductive testMsg :=
| Raw (data : list byte)
| Ping (data : list byte)
| Packet (sum : option (list byte))
| NilMsg.

(** Base-128 varints. *)
Fixpoint putUvarint (fuel : nat) (n : N) : list byte :=
  match fuel with
  | O => []
  | S fuel =>
      if (n <? 128)%N then [default Byte.x00 (Byte.of_N n)]
      else default Byte.x00 (Byte.of_N (n mod 128 + 128))
           :: putUvarint fuel (n / 128)
  end.

Fixpoint uvarint (fuel : nat) (b : list byte) : option (N * list byte) :=
  match fuel, b with
  | S fuel, x :: rest =>
      let v := Byte.to_N x in
      if (v <? 128)%N then Some (v, rest)
      else '(hi, rest) ← uvarint fuel rest;
           Some (v - 128 + 128 * hi, rest)%N
  | _, _ => None
  end.

(** Field 1 with wire type 2 (length-delimited). *)
Definition putField1 (payload : list byte) : list byte :=
  Byte.x0a :: putUvarint 10 (N.of_nat (length payload)) ++ payload.

(** The value of field 1 in [b], [seen] if it does not occur; a
    truncated input or another field is an error ([None]). *)
Fixpoint getField1 (fuel : nat) (b : list byte) (seen : option (list byte))
  : option (option (list byte)) :=
  match fuel, b with
  | _, [] => Some seen
  | S fuel, tag :: rest =>
      if bool_decide (tag = Byte.x0a) then
        '(n, rest) ← uvarint 10 rest;
        if bool_decide (N.to_nat n ≤ length rest)%nat then
          getField1 fuel (drop (N.to_nat n) rest)
                    (Some (take (N.to_nat n) rest))
        else None
      else None
  | O, _ :: _ => None
  end.

Definition testMsg_Marshal (m : testMsg) : list byte * error :=
  match m with
  | Raw d | Ping d => (if d is [] then [] else putField1 d, None)
  | Packet None => ([], None)
  | Packet (Some d) => (putField1 (if d is [] then [] else putField1 d), None)
  | NilMsg => ([], Some "proto: Marshal called with nil")
  end.

Definition testMsg_Unmarshal (b : list byte) (m : testMsg)
  : testMsg * error :=
  match m with
  | Raw old =>
      match getField1 (length b) b None with
      | Some d => (Raw (default old d), None)
      | None => (m, Some "unexpected EOF")
      end
  | Ping old =>
      match getField1 (length b) b None with
      | Some d => (Ping (default old d), None)
      | None => (m, Some "unexpected EOF")
      end
  | Packet old =>
      match getField1 (length b) b None with
      | Some None => (Packet old, None)
      | Some (Some inner) =>
          match getField1 (length inner) inner None with
          | Some d => (Packet (Some (default [] d)), None)
          | None => (m, Some "unexpected EOF")
          end
      | None => (m, Some "unexpected EOF")
      end
  | NilMsg => (m, Some "proto: Unmarshal called with nil")
  end.

#[global] Instance testMsg_ProtoMessage : ProtoMessage testMsg := {|
  getMsgType m :=
    match m with
    | Raw _ => "*Raw" | Ping _ => "*Ping" | Packet _ => "*Packet"
    | NilMsg => "<nil>"
    end;
  Marshal := testMsg_Marshal;
  Unmarshal := testMsg_Unmarshal;
  asWrapper m := if m is Ping d then Some (Packet (Some d)) else None;
  asUnwrapper m :=
    match m with
    | Packet (Some d) => Some (Ping d, None)
    | Packet None => Some (m, Some "unknown message")
    | _ => None
    end
|}.

(** A peer for the tests: node ["peer1"] with capability set [{0x20}]. *)
Definition testNodeInfo : NodeInfo :=
  {| NodeInfo_ID := "peer1";
     NodeInfo_NetAddr :=
       (Some {| NetAddr_ID := "peer1"; IP := "10.0.0.1"; Port := 26656 |},
        None);
     NodeInfo_Default :=
       Some {| DefaultNodeID := "peer1"; ListenAddr := "10.0.0.1:26656";
               Channels := [Byte.x20] |} |}.

Definition testPeer (st : service.Lifecycle) (c : mockConn)
  : @peer mockConn :=
  {| BaseService := {| service.Logger := []; service.state := st |};
     peerConn_ := newPeerConn true false c None;
     nodeInfo := testNodeInfo;
     channels := [Byte.x20];
     metrics := NopMetrics;
     pendingMetrics := newPeerPendingMetricsCache;
     removalAttemptFailed := false |}.

(** The dispatch table, the clock and the messages of the tests. *)
Definition testReactors : gmap byte string := {[ Byte.x20 := "H" ]}.

Definition testNow : time.Time := time.mkTime 63900000000000000000.

Definition testPing : testMsg := Ping [Byte.x01; Byte.x02].

Definition testPingBytes : list byte :=
  [Byte.x0a; Byte.x04; Byte.x0a; Byte.x02; Byte.x01; Byte.x02].

Definition testEnvelope (m : testMsg) : @Envelope testMsg :=
  {| ChannelID := Byte.x20; Src := "peer0"; Message := m |}.

(** The reactors of the tests, by name: ["echo"] sends the message it is
    handed back on its channel, ["evict"] marks the peer it is handed and
    stops it; any other reactor leaves the peer alone. *)
#[global] Instance testReactor : @Reactor mockConn testMsg string := {|
  Receive r e p :=
    if bool_decide (r = "echo") then [CallSend e testNow]
    else if bool_decide (r = "evict") then [CallSetRemovalFailed; CallStop]
    else []
|}.

(** An inbound and an outbound configuration with a predicate that
    holds of port 26656. *)
Definition testConfig (outbound : bool) : peerConfig.t string testMsg :=
  {| peerConfig.outbound := outbound;
     peerConfig.isPersistent :=
       Some (fun a => if a is Some a then bool_decide (Port a = 26656)
                      else false);
     peerConfig.reactorsByStreamID := testReactors;
     peerConfig.msgTypeByStreamID := {[ Byte.x20 := Packet None ]};
     peerConfig.metrics := NopMetrics |}.

(** A cache with a positive, a zero and a negative count. *)
Definition testCache : peerPendingMetricsCache :=
  {| mtx := false;
     perMessageCache :=
       {[ "*Ping" := {| label := "ping"; pendingSendBytes := 5;
                        pendingRecvBytes := 0 |};
          "*Raw" := {| label := "raw"; pendingSendBytes := -3;
                       pendingRecvBytes := 7 |} ]} |}.

(** A socket address other than the one [testNodeInfo] reports. *)
Definition testSocketAddr : NetAddr :=
  {| NetAddr_ID := "peer1"; IP := "192.168.1.9"; Port := 40001 |}.

(** Test doubles of the runner: an environment that answers every call
    with success, except the calls a given predicate picks out; a path
    join, a trimmer of spaces and a line scanner; a testnet of two
    nodes. *)
Definition testLogs : list byte :=
  String.list_byte_of_string
    (String.append "validator01  | starting node"
       (String.append runner.newline
          (String.append "no separator here"
             (String.append runner.newline "validator01  |  stopped ")))).

Definition testEnv (refused : runner.call -> bool)
    (h : list runner.call) (c : runner.call) : runner.response :=
  {| runner.err := if refused c then Some "refused" else None;
     runner.output :=
       if c is runner.ExecComposeOutput _ ("logs" :: _) then testLogs else [];
     runner.stamp :=
       if c is runner.Now then "20240102_030405" else EmptyString |}.

Definition refuseNone (c : runner.call) : bool := false.

Definition refuseFlush (c : runner.call) : bool :=
  if c is runner.Flush _ then true else false.

Fixpoint testJoin (parts : list string) : string :=
  match parts with
  | [] => EmptyString
  | part :: rest =>
      match rest with
      | [] => part
      | _ => String.append part (String.append "/" (testJoin rest))
      end
  end.

Definition space : Ascii.ascii := Ascii.ascii_of_nat 32.

Fixpoint trimLeft (s : string) : string :=
  match s with
  | EmptyString => EmptyString
  | String c rest => if Ascii.eqb c space then trimLeft rest else s
  end.

Fixpoint trimRight (s : string) : string :=
  match s with
  | EmptyString => EmptyString
  | String c rest =>
      match trimRight rest with
      | EmptyString =>
          if Ascii.eqb c space then EmptyString else String c EmptyString
      | kept => String c kept
      end
  end.

Definition testTrimSpace (s : string) : string := trimRight (trimLeft s).

Fixpoint splitLines (s : string) : list string :=
  match s with
  | EmptyString => []
  | String c rest =>
      if Ascii.eqb c (Ascii.ascii_of_nat 10) then EmptyString :: splitLines rest
      else match splitLines rest with
           | [] => [String c EmptyString]
           | line :: lines => String c line :: lines
           end
  end.

Definition testScanLines (data : list byte) : list string * error :=
  (splitLines (String.string_of_list_byte data), None).

(** A scanner that gives up on its input. *)
Definition testScanFails (data : list byte) : list string * error :=
  ([], Some "token too long").

Definition testTestnet : runner.Testnet :=
  {| runner.Name := "ci";
     runner.Dir := "networks/ci";
     runner.File := "networks/ci.toml";
     runner.Nodes := [ {| runner.Node_Name := "validator01" |};
                       {| runner.Node_Name := "full01" |} ] |}.

Definition testSave (refused : runner.call -> bool)
  : runner.Run error :=
  runner.Save (testEnv refused) testJoin testTrimSpace testScanLines
    testTestnet.

(* ===================================================================== *)
(** * Properties *)
(* ===================================================================== *)

(** ** Arithmetic of [int64] *)

Lemma Int64_wrap_valid z : Int64.valid (Int64.wrap z).
Proof.
  unfold Int64.valid, Int64.wrap, Int64.min, Int64.max.
  pose proof (Z.mod_pos_bound (z + 2 ^ 63) (2 ^ 64)). lia.
Qed.

Lemma Int64_wrap_id z : Int64.valid z -> Int64.wrap z = z.
Proof.
  unfold Int64.valid, Int64.wrap, Int64.min, Int64.max. intros Hz.
  rewrite Z.mod_small; lia.
Qed.

Lemma time_Sub_valid t u : Int64.valid (time.Sub t u).
Proof.
  unfold time.Sub, Int64.valid.
  repeat case_match; unfold Int64.min, Int64.max in *; lia.
Qed.

(** ** [state.CalculateDelay] *)

(** The cases of [util_test.go]: genesis time [testGenesis], block time
    one second, current block of height 10. *)
Example TestStateError :
  state.CalculateDelay
    (state.mockStore (time.mkTime 0) time.Second (Some "error") None)
    (state.testBlock (9 * time.Second)) = 0.
Proof. reflexivity. Qed.

Example TestConsensusParamError :
  state.CalculateDelay
    (state.mockStore state.testGenesis 0 None (Some "error"))
    (state.testBlock (9 * time.Second)) = 0.
Proof. reflexivity. Qed.

Example TestCalculateDelayWhenDiffIsZero :
  state.CalculateDelay
    (state.mockStore state.testGenesis time.Second None None)
    (state.testBlock (9 * time.Second)) = state.idealDelay time.Second.
Proof. vm_compute. reflexivity. Qed.

Example TestCalculateDelayWhenDiffIsMorePositiveThanMaxDeflection :
  let maxDeflection := state.maxDeflection time.Second in
  let addedDiff := maxDeflection + maxDeflection / 2 in
  state.CalculateDelay
    (state.mockStore state.testGenesis time.Second None None)
    (state.testBlock (9 * time.Second + addedDiff))
  = state.idealDelay time.Second - maxDeflection.
Proof. vm_compute. reflexivity. Qed.

Example TestCalculateDelayWhenDiffIsLessPositiveThanMaxDeflection :
  let maxDeflection := state.maxDeflection time.Second in
  let addedDiff := maxDeflection - maxDeflection / 2 in
  state.CalculateDelay
    (state.mockStore state.testGenesis time.Second None None)
    (state.testBlock (9 * time.Second + addedDiff))
  = state.idealDelay time.Second - addedDiff.
Proof. vm_compute. reflexivity. Qed.

Example TestCalculateDelayWhenDiffIsMoreNegativeThanMaxDeflection :
  let maxDeflection := state.maxDeflection time.Second in
  let addedDiff := - (maxDeflection + maxDeflection / 2) in
  state.CalculateDelay
    (state.mockStore state.testGenesis time.Second None None)
    (state.testBlock (9 * time.Second + addedDiff))
  = state.idealDelay time.Second + maxDeflection.
Proof. vm_compute. reflexivity. Qed.

Example TestCalculateDelayWhenDiffIsLessNegativeThanMaxDeflection :
  let maxDeflection := state.maxDeflection time.Second in
  let addedDiff := - (maxDeflection - maxDeflection / 2) in
  state.CalculateDelay
    (state.mockStore state.testGenesis time.Second None None)
    (state.testBlock (9 * time.Second + addedDiff))
  = state.idealDelay time.Second - addedDiff.
Proof. vm_compute. reflexivity. Qed.

(** The result as a function of the block time and of the drift [diff]
    of the chain against its schedule. *)
Lemma CalculateDelay_eq store blk st cp :
  state.Load store = (st, None) ->
  state.LoadConsensusParams store (Int64.sub (state.Height blk) 1) = (cp, None) ->
  time.IsZero (state.GenesisTime st) = false ->
  let bt := state.BlockTime (state.Block cp) in
  let diff :=
    Int64.sub (time.Sub (state.Time blk) (state.GenesisTime st))
              (Int64.mul bt (Int64.sub (state.Height blk) 1)) in
  state.CalculateDelay store blk =
    if state.maxDeflection bt <? time.Abs diff then
      if 0 <? diff then Int64.sub (state.idealDelay bt) (state.maxDeflection bt)
      else Int64.add (state.idealDelay bt) (state.maxDeflection bt)
    else Int64.sub (state.idealDelay bt) diff.
Proof.
  intros HL HP HZ. unfold state.CalculateDelay.
  rewrite HL, HP, HZ. reflexivity.
Qed.

Lemma idealDelay_nonneg bt :
  0 <= bt <= Int64.max ->
  state.idealDelay bt = bt - bt / 10 /\
  state.maxDeflection bt = (bt - bt / 10) / 5.
Proof.
  intros Hbt. unfold state.maxDeflection, state.idealDelay,
    state.MsgProcDelayRatio, state.DeflectionRatio, Int64.sub, Int64.quot.
  rewrite (Z.quot_div_nonneg bt 10) by lia.
  assert (H10 : 0 <= bt / 10 <= bt).
  { split; [apply Z.div_pos; lia | apply Z.div_le_upper_bound; lia]. }
  rewrite (Int64_wrap_id (bt / 10))
    by (unfold Int64.valid, Int64.min, Int64.max in *; lia).
  rewrite (Int64_wrap_id (bt - bt / 10))
    by (unfold Int64.valid, Int64.min, Int64.max in *; lia).
  rewrite Z.quot_div_nonneg by lia.
  assert (H5 : 0 <= (bt - bt / 10) / 5 <= bt - bt / 10).
  { split; [apply Z.div_pos; lia | apply Z.div_le_upper_bound; lia]. }
  rewrite Int64_wrap_id
    by (unfold Int64.valid, Int64.min, Int64.max in *; lia).
  done.
Qed.

Lemma CalculateDelay_band_arith ideal thr diff :
  0 <= thr <= ideal -> ideal + thr <= Int64.max -> Int64.valid diff ->
  let r :=
    if thr <? time.Abs diff then
      if 0 <? diff then Int64.sub ideal thr else Int64.add ideal thr
    else Int64.sub ideal diff in
  ideal - thr <= r <= ideal + thr.
Proof.
  intros Hthr Hmax Hdiff r. subst r.
  unfold time.Abs, Int64.sub, Int64.add, Int64.valid in *.
  unfold Int64.min, Int64.max in *.
  repeat case_match;
    repeat match goal with
    | H : (_ <? _) = _ |- _ => apply Z.ltb_lt in H || apply Z.ltb_ge in H
    | H : (_ <=? _) = _ |- _ => apply Z.leb_le in H || apply Z.leb_gt in H
    | H : (_ =? _) = _ |- _ => apply Z.eqb_eq in H || apply Z.eqb_neq in H
    end;
    rewrite Int64_wrap_id
      by (unfold Int64.valid, Int64.min, Int64.max; lia); lia.
Qed.

(** C9: the revision with the literals 10 and 5 and the revision with
    [MsgProcDelayRatio] and [DeflectionRatio] return the same duration
    for every store (whatever [Load] and [LoadConsensusParams] return,
    errors included) and every current block. *)
Theorem CalculateDelay_revisions_agree (store : state.Store)
    (currentBlock : state.Block_) :
  state.Literal.CalculateDelay store currentBlock
  = state.CalculateDelay store currentBlock.
Proof.
  unfold state.Literal.CalculateDelay, state.CalculateDelay.
  destruct (state.Load store) as [st [e|]]; [reflexivity|].
  destruct (state.LoadConsensusParams store _) as [cp [e|]]; [reflexivity|].
  destruct (time.IsZero _); [reflexivity|].
  change state.MsgProcDelayRatio with 10.
  change state.DeflectionRatio with 5.
  reflexivity.
Qed.

(** C10 as stated fails: with a negative block time the band
    [ideal - threshold, ideal + threshold] is empty (the threshold is
    negative) and the result lies outside it; with a block time near the
    largest duration [ideal + threshold] overflows and the result for a
    chain behind its schedule is negative. *)
Lemma CalculateDelay_band_counterexample :
  let blk := {| state.Height := 1; state.Time := time.mkTime 1 |} in
  let late := {| state.Height := 2; state.Time := time.mkTime 1 |} in
  let s1 := state.mockStore (time.mkTime 1) (-10) None None in
  let s2 := state.mockStore (time.mkTime 1) Int64.max None None in
  time.IsZero (time.mkTime 1) = false /\
  state.CalculateDelay s1 blk = -10 /\
  ~ state.inBand (-10) (state.CalculateDelay s1 blk) /\
  state.CalculateDelay s2 late = -8485502273906393744 /\
  ~ state.inBand Int64.max (state.CalculateDelay s2 late).
Proof.
  vm_compute. repeat split; try reflexivity; intros [H1 H2]; congruence.
Qed.

(** C10, amended: when both loads succeed, the genesis time is nonzero,
    the block time is not negative and [ideal + threshold] does not
    exceed the largest duration, the result lies in
    [ideal - threshold, ideal + threshold]; when a load fails or the
    genesis time is zero, the result is 0. *)
Theorem CalculateDelay_band (store : state.Store) (blk : state.Block_) :
  let st := fst (state.Load store) in
  let cp := fst (state.LoadConsensusParams store
                   (Int64.sub (state.Height blk) 1)) in
  let bt := state.BlockTime (state.Block cp) in
  (snd (state.Load store) = None ->
   snd (state.LoadConsensusParams store (Int64.sub (state.Height blk) 1))
     = None ->
   time.IsZero (state.GenesisTime st) = false ->
   0 <= bt <= Int64.max ->
   state.idealDelay bt + state.maxDeflection bt <= Int64.max ->
   state.inBand bt (state.CalculateDelay store blk))
  /\
  (snd (state.Load store) <> None \/
   snd (state.LoadConsensusParams store (Int64.sub (state.Height blk) 1))
     <> None \/
   time.IsZero (state.GenesisTime st) = true ->
   state.CalculateDelay store blk = 0).
Proof.
  intros st cp bt. subst st cp bt. split.
  - destruct (state.Load store) as [st e] eqn:HL.
    destruct (state.LoadConsensusParams store _) as [cp e'] eqn:HP.
    simpl. intros -> -> HZ Hbt Hmax.
    rewrite (CalculateDelay_eq _ _ _ _ HL HP HZ). unfold state.inBand.
    destruct (idealDelay_nonneg _ Hbt) as [Hi Hd].
    apply CalculateDelay_band_arith.
    + rewrite Hi, Hd.
      set (i := state.BlockTime (state.Block cp) - _ / 10).
      assert (0 <= i).
      { subst i. assert (state.BlockTime (state.Block cp) / 10
                         <= state.BlockTime (state.Block cp))
          by (apply Z.div_le_upper_bound; lia). lia. }
      split; [apply Z.div_pos; lia | apply Z.div_le_upper_bound; lia].
    + exact Hmax.
    + apply Int64_wrap_valid.
  - unfold state.CalculateDelay.
    destruct (state.Load store) as [st [e|]]; simpl; [done|].
    destruct (state.LoadConsensusParams store _) as [cp [e|]]; simpl; [done|].
    intros [H|[H|H]]; [done|done|]. by rewrite H.
Qed.

Lemma CalculateDelay_band_witness :
  let genesis := time.mkTime 63900000000000000000 in
  let blk := {| state.Height := 10;
                state.Time := time.mkTime 63900000009100000000 |} in
  state.inBand time.Second
    (state.CalculateDelay (state.mockStore genesis time.Second None None)
                          blk) /\
  state.CalculateDelay
    (state.mockStore genesis time.Second None (Some "error")) blk = 0.
Proof.
  intros genesis blk. split.
  - apply (proj1 (CalculateDelay_band
                    (state.mockStore genesis time.Second None None) blk)).
    + reflexivity.
    + reflexivity.
    + reflexivity.
    + vm_compute. split; discriminate.
    + vm_compute. discriminate.
  - apply (proj2 (CalculateDelay_band
                    (state.mockStore genesis time.Second None (Some "error"))
                    blk)).
    right. left. discriminate.
Defined.

(** ** The peer *)

Section PeerFacts.

Context {C M R : Type} `{!Connection C} `{!ProtoMessage M}.

Implicit Types (p q : @peer C) (e : @Envelope M).

(** *** Construction *)

Lemma scanChannels_elem (chs : list byte) (chID : byte) :
  scanChannels chs chID = true <-> chID ∈ chs.
Proof.
  induction chs as [|ch chs IH]; simpl.
  - split; [discriminate | intros H; inversion H].
  - case_bool_decide as Hch.
    + subst. split; [intros _; left | done].
    + rewrite IH. split; [by right|].
      intros H. apply elem_of_cons in H as [?|?]; congruence.
Qed.

Lemma scanChannels_not_elem (chs : list byte) (chID : byte) :
  scanChannels chs chID = false <-> chID ∉ chs.
Proof.
  rewrite <- scanChannels_elem. destruct (scanChannels chs chID); naive_solver.
Qed.

(** Options that leave a field alone leave it alone when applied in a
    row. *)
Lemma foldl_options_preserve {A} (f : @peer C -> A)
    (options : list (@PeerOption C)) p :
  Forall (fun o => forall q, f (o q) = f q) options ->
  f (foldl (fun p option => option p) p options) = f p.
Proof.
  intros Hall. revert p.
  induction Hall as [|o options Ho _ IH]; intros p; simpl; [done|].
  by rewrite IH, Ho.
Qed.

Lemma newPeer_inv pc ni (reactors : gmap byte R) (msgTypes : gmap byte M)
    options p started :
  newPeer pc ni reactors msgTypes options = Done (p, started) ->
  exists d,
    NodeInfo_Default ni = Some d /\
    started = [go_readLoop reactors msgTypes] /\
    p = foldl (fun p option => option p)
          {| BaseService := service.NewBaseService;
             peerConn_ := pc; nodeInfo := ni; channels := Channels d;
             metrics := NopMetrics;
             pendingMetrics := newPeerPendingMetricsCache;
             removalAttemptFailed := false |} options.
Proof.
  unfold newPeer. destruct (NodeInfo_Default ni) as [d|]; [|discriminate].
  intros [= <- <-]. by exists d.
Qed.

(** *** The send path *)

Lemma send_not_running streamID (msg : M) sendFunc p :
  IsRunning p = false -> send streamID msg sendFunc p = (false, p).
Proof. intros H. unfold send. by rewrite H. Qed.

Lemma send_no_channel streamID (msg : M) sendFunc p :
  HasChannel p streamID = false -> send streamID msg sendFunc p = (false, p).
Proof.
  intros H. unfold send. rewrite H. by destruct (IsRunning p).
Qed.

(** C7: a peer built by [newPeer] (with options that do not write the
    channel list, as [PeerMetrics]) has [HasChannel chID] exactly for the
    [chID] in the channel list [Channels] of its node info; for a stream
    outside that list, registered in the dispatch table or not,
    [HasChannel] is false, and [Send] and [TrySend] return false having
    only set the write deadline: the write function is not called
    ([send] returns the peer it was given, whatever the write function). *)
Theorem HasChannel_iff_capability pc ni (reactors : gmap byte R)
    (msgTypes : gmap byte M) options p started d :
  newPeer pc ni reactors msgTypes options = Done (p, started) ->
  NodeInfo_Default ni = Some d ->
  Forall (fun o => forall q, channels (o q) = channels q) options ->
  (forall chID, HasChannel p chID = true <-> chID ∈ Channels d) /\
  (forall streamID, streamID ∉ Channels d ->
     HasChannel p streamID = false /\
     forall q (msg : M) src now,
       channels q = channels p ->
       let e := {| ChannelID := streamID; Src := src; Message := msg |} in
       (forall sendFunc, send streamID msg sendFunc q = (false, q)) /\
       Send e now q =
         (false, withConn (SetWriteDeadline (time.Add now (10 * time.Second))
                                            (Conn q)) q) /\
       TrySend e now q =
         (false, withConn (SetWriteDeadline
                             (time.Add now (100 * time.Millisecond))
                             (Conn q)) q)).
Proof.
  intros Hnew Hd Hopts.
  destruct (newPeer_inv _ _ _ _ _ _ _ Hnew) as (d' & Hd' & _ & Hp).
  assert (d' = d) as -> by congruence.
  assert (Hch : channels p = Channels d).
  { rewrite Hp. by rewrite (foldl_options_preserve channels). }
  split.
  - intros chID. unfold HasChannel. rewrite Hch. apply scanChannels_elem.
  - intros streamID Hnot.
    assert (Hp_no : HasChannel p streamID = false).
    { unfold HasChannel. rewrite Hch. by apply scanChannels_not_elem. }
    split; [done|]. intros q msg src now Hq e.
    assert (Hq_no : forall c, HasChannel (withConn c q) streamID = false).
    { intros c. unfold HasChannel in *. simpl. by rewrite Hq. }
    split; [|split].
    + intros sendFunc. apply send_no_channel.
      unfold HasChannel in *. by rewrite Hq.
    + unfold Send. by rewrite send_no_channel.
    + unfold TrySend. by rewrite send_no_channel.
Qed.

(** C8: the peer [wrapPeer] returns has [IsPersistent] equal to: false
    without a predicate; the predicate at the socket address for an
    outbound peer; the predicate at the self-reported address for an
    inbound peer whose node info yields it; false for an inbound peer
    whose node info fails to yield it.  That failure is no failure of
    [wrapPeer]: it returns a peer for every [ni.Default] node info. *)
Theorem wrapPeer_persistent (c : C) (ni : NodeInfo)
    (cfg : peerConfig.t R M) (socketAddr : option NetAddr) :
  (forall d, NodeInfo_Default ni = Some d ->
     exists p started, wrapPeer c ni cfg socketAddr = Done (p, started)) /\
  (forall p started,
     wrapPeer c ni cfg socketAddr = Done (p, started) ->
     IsOutbound p = peerConfig.outbound cfg /\
     IsPersistent p =
       match peerConfig.isPersistent cfg with
       | None => false
       | Some isPersistent =>
           if peerConfig.outbound cfg then isPersistent socketAddr
           else match NodeInfo_NetAddr ni with
                | (selfReportedAddr, None) => isPersistent selfReportedAddr
                | (_, Some _) => false
                end
       end).
Proof.
  split.
  - intros d Hd. unfold wrapPeer, newPeer. rewrite Hd. eauto.
  - intros p started Hw. unfold wrapPeer in Hw.
    apply newPeer_inv in Hw as (d & _ & _ & ->). simpl.
    unfold IsOutbound, IsPersistent. simpl. split; [done|].
    destruct (peerConfig.isPersistent cfg) as [f|]; [|done].
    destruct (peerConfig.outbound cfg); [done|].
    by destruct (NodeInfo_NetAddr ni) as [a [err|]].
Qed.

End PeerFacts.

Section LifecycleFacts.

Context {C M R : Type} `{!Connection C} `{!ProtoMessage M}.
Context {handlers : @Reactor C M R}.

Implicit Types (p q : @peer C) (e : @Envelope M).
Implicit Types (received : list (R * @Envelope M)).

Lemma Start_Created p :
  service.state (BaseService p) = service.Created ->
  Start p = (None, setState service.Running (setState service.Starting p),
             [@go_metricsReporter M R]).
Proof. intros H. unfold Start. by rewrite H. Qed.

Lemma Stop_Running p :
  IsRunning p = true ->
  Stop p = setState service.Stopped (OnStop (setState service.Stopping p)).
Proof.
  unfold IsRunning, service.IsRunning, Stop. intros H.
  apply bool_decide_eq_true in H. by rewrite H.
Qed.

(** C4, amended: [newPeer] (with options that do not write the base
    service, as [PeerMetrics]) returns a peer in state Created, not
    running, and has already started the read loop; [Start] takes that
    peer from Created to Running and starts the metrics reporter only. *)
Theorem newPeer_starts_readLoop pc ni (reactors : gmap byte R)
    (msgTypes : gmap byte M) options p started :
  newPeer pc ni reactors msgTypes options = Done (p, started) ->
  Forall (fun o => forall q, BaseService (o q) = BaseService q) options ->
  started = [go_readLoop reactors msgTypes] /\
  service.state (BaseService p) = service.Created /\
  IsRunning p = false /\
  exists p', Start p = (None, p', [@go_metricsReporter M R]) /\
             service.state (BaseService p') = service.Running /\
             IsRunning p' = true.
Proof.
  intros Hnew Hopts.
  destruct (newPeer_inv _ _ _ _ _ _ _ Hnew) as (d & _ & -> & Hp).
  assert (Hbs : BaseService p = service.NewBaseService).
  { rewrite Hp. by rewrite (foldl_options_preserve BaseService). }
  split; [done|]. split; [by rewrite Hbs|].
  split; [unfold IsRunning; by rewrite Hbs|].
  eexists. split; [apply Start_Created; by rewrite Hbs|]. done.
Qed.

(** *** The read loop *)

Lemma rangeStreams_app (msgTypes : gmap byte M) (pre rest : list (byte * R))
    p received :
  rangeStreams msgTypes (pre ++ rest) p received =
    match rangeStreams msgTypes pre p received with
    | Next p' received' => rangeStreams msgTypes rest p' received'
    | stop => stop
    end.
Proof.
  revert p received.
  induction pre as [|[streamID reactor] pre IH]; intros p received; simpl.
  - done.
  - destruct (readStream msgTypes streamID reactor p received); auto.
Qed.

(** A turn that visits [streamID] after the streams [pre] went through:
    what the body of the loop does there decides the turn. *)
Lemma rangeStreams_at (msgTypes : gmap byte M) pre streamID (reactor : R)
    rest p received p1 received1 :
  rangeStreams msgTypes pre p received = Next p1 received1 ->
  rangeStreams msgTypes (pre ++ (streamID, reactor) :: rest) p received =
    match readStream msgTypes streamID reactor p1 received1 with
    | Next p' received' => rangeStreams msgTypes rest p' received'
    | stop => stop
    end.
Proof. intros H. rewrite rangeStreams_app, H. done. Qed.

Lemma readStream_read_error (msgTypes : gmap byte M) streamID (reactor : R)
    p received n err data c' :
  Read streamID 1024 (Conn p) = ((n, Some err, data), c') ->
  readStream msgTypes streamID reactor p received =
    Return (Stop (logf "debug" "Error reading from stream" (withConn c' p)))
           received.
Proof.
  intros HR. unfold readStream.
  change (length (make 1024)) with 1024%nat. by rewrite HR.
Qed.

Lemma readStream_zero (msgTypes : gmap byte M) streamID (reactor : R)
    p received data c' :
  Read streamID 1024 (Conn p) = ((0, None, data), c') ->
  readStream msgTypes streamID reactor p received
  = Next (withConn c' p) received.
Proof.
  intros HR. unfold readStream.
  change (length (make 1024)) with 1024%nat. by rewrite HR.
Qed.

(** C5, amended: when the read of a stream returns an error, the read
    loop writes a debug log entry, calls [Stop] and returns (it does not
    panic); a peer that is Running at that point is Stopped afterwards,
    with its connection closed and the entry in its log.  When the read
    returns zero bytes (and no error), the turn goes on with the next
    stream, the peer's lifecycle state, log, metrics and cache are as
    before and nothing is delivered. *)
Theorem readLoop_read_error_or_empty (msgTypes : gmap byte M)
    (pre rest : list (byte * R)) (passes : list (list (byte * R)))
    streamID (reactor : R) p received p1 received1 n err data c' :
  service.QuitClosed (BaseService p) = false ->
  rangeStreams msgTypes pre p received = Next p1 received1 ->
  Read streamID 1024 (Conn p1) = ((n, err, data), c') ->
  (err <> None ->
     let entry := {| service.level := "debug";
                     service.text := "Error reading from stream" |} in
     let logged := logf "debug" "Error reading from stream"
                        (withConn c' p1) in
     readLoop ((pre ++ (streamID, reactor) :: rest) :: passes)
              msgTypes p received = Return (Stop logged) received1 /\
     service.Logger (BaseService logged)
       = service.Logger (BaseService p1) ++ [entry] /\
     (IsRunning p1 = true ->
        service.state (BaseService (Stop logged)) = service.Stopped /\
        Conn (Stop logged) = Close "stopping peer" c' /\
        entry ∈ service.Logger (BaseService (Stop logged)))) /\
  (err = None -> n = 0 ->
     rangeStreams msgTypes (pre ++ (streamID, reactor) :: rest) p received
     = rangeStreams msgTypes rest (withConn c' p1) received1 /\
     BaseService (withConn c' p1) = BaseService p1 /\
     pendingMetrics (withConn c' p1) = pendingMetrics p1 /\
     metrics (withConn c' p1) = metrics p1).
Proof.
  intros HQ Hpre HR. split.
  - intros Herr entry logged. destruct err as [err|]; [|done].
    split; [|split; [done|]].
    + simpl. rewrite HQ.
      rewrite (rangeStreams_at _ _ _ _ _ _ _ _ _ Hpre).
      by rewrite (readStream_read_error _ _ _ _ _ _ _ _ _ HR).
    + intros Hrun. subst logged. rewrite Stop_Running by done.
      split; [done|]. split; [done|]. simpl.
      apply elem_of_app. right. left.
  - intros -> ->. split; [|done].
    rewrite (rangeStreams_at _ _ _ _ _ _ _ _ _ Hpre).
    by rewrite (readStream_zero _ _ _ _ _ _ _ HR).
Qed.

(** C6: after a read of [n > 0] bytes on a stream with a registered
    prototype, if unmarshaling the bytes read into the prototype fails,
    or if the decoded message is an [Unwrapper] whose [Unwrap] fails, the
    body of the loop panics, and so do the turn and [readLoop]: the
    result is a panic, not a return with the peer stopped. *)
Theorem readLoop_decode_failure_panics (msgTypes : gmap byte M)
    (pre rest : list (byte * R)) (passes : list (list (byte * R)))
    streamID (reactor : R) p received p1 received1 n data c' mt :
  service.QuitClosed (BaseService p) = false ->
  rangeStreams msgTypes pre p received = Next p1 received1 ->
  Read streamID 1024 (Conn p1) = ((n, None, data), c') ->
  0 < n ->
  msgTypes !! streamID = Some mt ->
  let b := take (Z.to_nat n) (store (make 1024) data) in
  snd (Unmarshal b mt) <> None \/
  (exists msg' err, asUnwrapper (fst (Unmarshal b mt)) = Some (msg', Some err)) ->
  exists reason,
    readStream msgTypes streamID reactor p1 received1 = Panicked reason /\
    rangeStreams msgTypes (pre ++ (streamID, reactor) :: rest) p received
      = Panicked reason /\
    readLoop ((pre ++ (streamID, reactor) :: rest) :: passes)
             msgTypes p received = Panicked reason.
Proof.
  intros HQ Hpre HR Hn Hmt b Hfail.
  assert (Hbody : exists reason,
    readStream msgTypes streamID reactor p1 received1 = Panicked reason).
  { unfold readStream. change (length (make 1024)) with 1024%nat.
    rewrite HR. simpl. destruct (n =? 0) eqn:Hn0; [lia|].
    rewrite Hmt. unfold slice_to.
    destruct ((0 <=? n) && (n <=? len (store (make 1024) data)));
      [|eauto].
    fold b. destruct (Unmarshal b mt) as [msg [err|]] eqn:HU; [eauto|].
    simpl in Hfail. destruct Hfail as [?|(msg' & err & Hun)]; [done|].
    rewrite Hun. eauto. }
  destruct Hbody as [reason Hbody]. exists reason.
  split; [done|].
  assert (Hturn : rangeStreams msgTypes (pre ++ (streamID, reactor) :: rest)
                    p received = Panicked reason).
  { by rewrite (rangeStreams_at _ _ _ _ _ _ _ _ _ Hpre), Hbody. }
  split; [done|]. simpl. by rewrite HQ, Hturn.
Qed.

End LifecycleFacts.

(** ** The pending-metrics cache *)

Lemma AddPendingSendBytes_same (t : string) (n : Z)
    (c : peerPendingMetricsCache) :
  Int64.valid n ->
  pendingSendOf t (AddPendingSendBytes t n c)
    = Int64.add (pendingSendOf t c) n /\
  pendingRecvOf t (AddPendingSendBytes t n c) = pendingRecvOf t c.
Proof.
  intros Hn. unfold pendingSendOf, pendingRecvOf, AddPendingSendBytes. simpl.
  destruct (perMessageCache c !! t) as [entry|] eqn:Ht;
    rewrite lookup_insert_eq; simpl; [done|].
  unfold Int64.add. by rewrite Int64_wrap_id.
Qed.

Lemma AddPendingSendBytes_other (t t' : string) (n : Z)
    (c : peerPendingMetricsCache) :
  t <> t' ->
  perMessageCache (AddPendingSendBytes t n c) !! t' = perMessageCache c !! t'.
Proof.
  intros Hne. unfold AddPendingSendBytes. simpl.
  destruct (perMessageCache c !! t); by rewrite lookup_insert_ne.
Qed.




(** *** The drain of the metrics reporter *)

Lemma Counter_value_app (l : string) (c1 c2 : Counter) :
  Counter_value l (c1 ++ c2) = Counter_value l c1 + Counter_value l c2.
Proof.
  induction c1 as [|[l' v] c1 IH]; simpl; [done|]. rewrite IH. lia.
Qed.

Lemma pendingUnder_Permutation f l order order' :
  order ≡ₚ order' -> pendingUnder f l order = pendingUnder f l order'.
Proof.
  induction 1 as [|[k x] o o' _ IH|[k x] [k' y] o|o o' o'' _ IH1 _ IH2];
    simpl.
  - done.
  - by rewrite IH.
  - lia.
  - by rewrite IH1.
Qed.

(** While the mutex is held the drain waits. *)
Lemma flushCacheIn_held order c m :
  mtx c = true -> flushCacheIn order c m = None.
Proof. intros H. unfold flushCacheIn, Lock. by rewrite H. Qed.










Section DrainFacts.

Context {C : Type}.

Implicit Types (p : @peer C).


End DrainFacts.

(** The invariant holds at construction and is kept by the additions of
    the send path and of the read loop, short of an overflow. *)
Lemma newPeerPendingMetricsCache_nonNegative :
  nonNegative newPeerPendingMetricsCache.
Proof.
  intros k entry H. unfold newPeerPendingMetricsCache in H. simpl in H.
  by rewrite lookup_empty in H.
Qed.

Lemma AddPendingSendBytes_nonNegative t n c :
  0 <= n -> pendingSendOf t c + n <= Int64.max ->
  nonNegative c -> nonNegative (AddPendingSendBytes t n c).
Proof.
  intros Hn Hmax Hc k entry. unfold AddPendingSendBytes, pendingSendOf in *.
  simpl. destruct (perMessageCache c !! t) as [old|] eqn:Ht.
  - destruct (decide (t = k)) as [->|Hne].
    + rewrite lookup_insert_eq. intros [= <-]. simpl.
      destruct (Hc _ _ Ht) as [Hs Hr]. split; [|done].
      unfold Int64.add. rewrite Int64_wrap_id; [lia|].
      unfold Int64.valid, Int64.min, Int64.max in *. lia.
    + rewrite lookup_insert_ne by done. apply Hc.
  - destruct (decide (t = k)) as [->|Hne].
    + rewrite lookup_insert_eq. intros [= <-]. simpl. lia.
    + rewrite lookup_insert_ne by done. apply Hc.
Qed.

Lemma AddPendingRecvBytes_nonNegative t n c :
  0 <= n -> pendingRecvOf t c + n <= Int64.max ->
  nonNegative c -> nonNegative (AddPendingRecvBytes t n c).
Proof.
  intros Hn Hmax Hc k entry. unfold AddPendingRecvBytes, pendingRecvOf in *.
  simpl. destruct (perMessageCache c !! t) as [old|] eqn:Ht.
  - destruct (decide (t = k)) as [->|Hne].
    + rewrite lookup_insert_eq. intros [= <-]. simpl.
      destruct (Hc _ _ Ht) as [Hs Hr]. split; [done|].
      unfold Int64.add. rewrite Int64_wrap_id; [lia|].
      unfold Int64.valid, Int64.min, Int64.max in *. lia.
    + rewrite lookup_insert_ne by done. apply Hc.
  - destruct (decide (t = k)) as [->|Hne].
    + rewrite lookup_insert_eq. intros [= <-]. simpl. lia.
    + rewrite lookup_insert_ne by done. apply Hc.
Qed.

Section SendFacts.

Context {C M R : Type} `{!Connection C} `{!ProtoMessage M}.
Context {handlers : @Reactor C M R}.

Implicit Types (p q : @peer C) (e : @Envelope M).
Implicit Types (received : list (R * @Envelope M)).


(** C1, amended: [Send] and [TrySend] first set the write deadline (10 s
    and 100 ms from now) on the connection, whatever follows.  They
    return false
    - when the peer is not Running or the channel is not in the peer's
      channel list: nothing but the deadline has changed, nothing is
      written or logged;
    - when [proto.Marshal] of the (wrapped) message fails: nothing is
      written, one entry is added to the log;
    - when the write returns an error or a count other than the encoded
      length: the connection is as the write left it and one entry is
      added to the log.
    Whenever they return false, the pending-metrics cache, the counters,
    the lifecycle state and the channel list are as before.  Otherwise
    (a full write) they return true and the encoded length has been
    added to the pending-send count of the type of the message handed
    in. *)
Theorem Send_TrySend_contract (try : bool) e (now : time.Time) p :
  let op := if try then TrySend else Send in
  let d := if try then 100 * time.Millisecond else 10 * time.Second in
  let p0 := withConn (SetWriteDeadline (time.Add now d) (Conn p)) p in
  let msg := if asWrapper (Message e) is Some w then w else Message e in
  let msgBytes := fst (Marshal msg) in
  let wr := Write (ChannelID e) msgBytes (Conn p0) in
  let n := fst (fst wr) in
  let p' := snd (op e now p) in
  let msgType := getMsgType (Message e) in
  (IsRunning p = false \/ HasChannel p (ChannelID e) = false ->
     fst (op e now p) = false /\ p' = p0)
  /\
  (IsRunning p = true -> HasChannel p (ChannelID e) = true ->
   snd (Marshal msg) <> None ->
     fst (op e now p) = false /\
     p' = logf "error" "Can't marshal msg" p0)
  /\
  (IsRunning p = true -> HasChannel p (ChannelID e) = true ->
   snd (Marshal msg) = None -> snd (fst wr) <> None ->
     fst (op e now p) = false /\
     p' = logf "error" "Failed to send msg to stream"
            (withConn (snd wr) p0))
  /\
  (IsRunning p = true -> HasChannel p (ChannelID e) = true ->
   snd (Marshal msg) = None -> snd (fst wr) = None -> n <> len msgBytes ->
     fst (op e now p) = false /\
     p' = logf "error" "Message not sent completely"
            (withConn (snd wr) p0))
  /\
  (fst (op e now p) = false ->
     pendingMetrics p' = pendingMetrics p /\
     metrics p' = metrics p /\
     service.state (BaseService p') = service.state (BaseService p) /\
     channels p' = channels p)
  /\
  (IsRunning p = true -> HasChannel p (ChannelID e) = true ->
   snd (Marshal msg) = None -> snd (fst wr) = None -> n = len msgBytes ->
     fst (op e now p) = true /\
     p' = withPendingMetrics
            (AddPendingSendBytes msgType (len msgBytes) (pendingMetrics p))
            (withConn (snd wr) p0) /\
     (Int64.valid (len msgBytes) ->
      pendingSendOf msgType (pendingMetrics p')
        = Int64.add (pendingSendOf msgType (pendingMetrics p))
                    (len msgBytes))).
Proof.
  intros op d p0 msg msgBytes wr n p' msgType.
  assert (Hop : op e now p = send (ChannelID e) (Message e) Write p0).
  { subst op d p0. by destruct try. }
  assert (Hrun : IsRunning p0 = IsRunning p) by done.
  assert (Hch : HasChannel p0 (ChannelID e) = HasChannel p (ChannelID e))
    by done.
  subst p'. rewrite Hop. unfold send. rewrite Hrun, Hch.
  fold msg. subst n wr msgBytes.
  destruct (Marshal msg) as [msgBytes merr] eqn:HM. simpl.
  destruct (Write (ChannelID e) msgBytes (Conn p0)) as [[n werr] c'] eqn:HW.
  simpl.
  split; [|split; [|split; [|split; [|split]]]].
  - intros [->| ->]; simpl; [done|]. by destruct (IsRunning p).
  - intros -> -> Hm. simpl. by destruct merr.
  - intros -> -> -> Hw. simpl. by destruct werr.
  - intros -> -> -> -> Hn. simpl.
    apply Z.eqb_neq in Hn. by rewrite Hn.
  - destruct (IsRunning p); simpl; [|done].
    destruct (HasChannel p (ChannelID e)); simpl; [|done].
    destruct merr as [merr|]; simpl; [done|].
    destruct werr as [werr|]; simpl; [done|].
    destruct (n =? len msgBytes); simpl; done.
  - intros -> -> -> -> ->. simpl. rewrite Z.eqb_refl. simpl.
    split; [done|]. split; [done|].
    intros Hv. by apply AddPendingSendBytes_same.
Qed.


End SendFacts.

(* ===================================================================== *)
(** * The properties on the test doubles *)
(* ===================================================================== *)

Example Marshal_ping : Marshal (Packet (Some [Byte.x01; Byte.x02]))
                       = (testPingBytes, None).
Proof. reflexivity. Qed.

Example Send_running :
  fst (Send (testEnvelope testPing) testNow
         (testPeer service.Running (newMockConn [] writesAll))) = true.
Proof. reflexivity. Qed.

Example Send_partial_write :
  fst (Send (testEnvelope testPing) testNow
         (testPeer service.Running (newMockConn [] writesShort))) = false.
Proof. reflexivity. Qed.

Example Send_nil_message :
  fst (Send (testEnvelope NilMsg) testNow
         (testPeer service.Running (newMockConn [] writesAll))) = false.
Proof. reflexivity. Qed.

Example readStream_delivers :
  exists p,
    readStream {[ Byte.x20 := Packet None ]} Byte.x20 "H"
      (testPeer service.Running (newMockConn [(6, None, testPingBytes)] writesAll))
      []
    = Next p [("H", {| ChannelID := Byte.x20; Src := "peer1";
                       Message := testPing |})].
Proof. eexists. vm_compute. reflexivity. Qed.




(** C1 as stated fails: a [Send] that returns false has side effects.
    On a Stopped peer it has set the write deadline of the connection.
    With a write that takes all bytes but one, the bytes have been
    handed to the transport and an error has been logged. *)
Lemma Send_failure_side_effects :
  let e := testEnvelope testPing in
  let stopped := testPeer service.Stopped (newMockConn [] writesAll) in
  let short := testPeer service.Running (newMockConn [] writesShort) in
  (fst (Send e testNow stopped) = false /\
   snd (Send e testNow stopped) <> stopped /\
   deadline (Conn stopped) = None /\
   deadline (Conn (snd (Send e testNow stopped)))
     = Some (time.Add testNow (10 * time.Second))) /\
  (fst (Send e testNow short) = false /\
   snd (Send e testNow short) <> short /\
   written (Conn short) = [] /\
   written (Conn (snd (Send e testNow short)))
     = [(Byte.x20, testPingBytes)] /\
   service.Logger (BaseService short) = [] /\
   service.Logger (BaseService (snd (Send e testNow short)))
     = [ {| service.level := "error";
            service.text := "Message not sent completely" |} ]).
Proof.
  intros e stopped short. split.
  - split; [reflexivity|]. split; [|split; reflexivity].
    intros Heq. apply (f_equal (fun q => deadline (Conn q))) in Heq.
    vm_compute in Heq. discriminate.
  - split; [reflexivity|]. split; [|repeat split; reflexivity].
    intros Heq. apply (f_equal (fun q => written (Conn q))) in Heq.
    vm_compute in Heq. discriminate.
Qed.

Lemma Send_TrySend_contract_witness :
  let e := testEnvelope testPing in
  let stopped := testPeer service.Stopped (newMockConn [] writesAll) in
  let short := testPeer service.Running (newMockConn [] writesShort) in
  let running := testPeer service.Running (newMockConn [] writesAll) in
  (fst (Send e testNow stopped) = false /\
   pendingMetrics (snd (Send e testNow stopped)) = pendingMetrics stopped) /\
  (fst (Send e testNow short) = false /\
   service.Logger (BaseService (snd (Send e testNow short)))
     = [ {| service.level := "error";
            service.text := "Message not sent completely" |} ]) /\
  (fst (TrySend e testNow running) = true /\
   pendingSendOf "*Ping" (pendingMetrics (snd (TrySend e testNow running)))
   = 6).
Proof.
  intros e stopped short running.
  split; [|split].
  - destruct (Send_TrySend_contract false e testNow stopped)
      as (Hrefused & _ & _ & _ & Hkept & _).
    destruct Hrefused as [Hfalse _]; [left; reflexivity|].
    split; [exact Hfalse|]. exact (proj1 (Hkept Hfalse)).
  - destruct (Send_TrySend_contract false e testNow short)
      as (_ & _ & _ & Hshort & _).
    destruct Hshort as [Hfalse Hp'];
      [reflexivity | reflexivity | reflexivity | reflexivity
      | vm_compute; discriminate |].
    split; [exact Hfalse|]. rewrite Hp'. reflexivity.
  - destruct (Send_TrySend_contract true e testNow running)
      as (_ & _ & _ & _ & _ & Hok).
    destruct Hok as (Htrue & _ & Hcount); try reflexivity.
    split; [exact Htrue|].
    refine (eq_trans (Hcount _) _); [|reflexivity].
    vm_compute. split; discriminate.
Defined.



(** C4 as stated fails: the peer [newPeer] returns is in state Created
    and the read loop has been started; [Start] then starts the metrics
    reporter and not the read loop. *)
Lemma readLoop_started_before_Start :
  let msgTypes : gmap byte testMsg := {[ Byte.x20 := Packet None ]} in
  let pc := newPeerConn true false (newMockConn [] writesAll) None in
  exists p,
    newPeer pc testNodeInfo testReactors msgTypes []
      = Done (p, [go_readLoop testReactors msgTypes]) /\
    service.state (BaseService p) = service.Created /\
    (Start (M := testMsg) (R := string) p).2 = [go_metricsReporter] /\
    go_readLoop testReactors msgTypes
      ∉ (Start (M := testMsg) (R := string) p).2.
Proof.
  intros msgTypes pc. eexists. split; [reflexivity|].
  split; [reflexivity|]. split; [reflexivity|].
  simpl. intros Hin. apply list_elem_of_singleton in Hin. discriminate.
Qed.

Lemma newPeer_starts_readLoop_witness :
  let msgTypes : gmap byte testMsg := {[ Byte.x20 := Packet None ]} in
  let pc := newPeerConn true false (newMockConn [] writesAll) None in
  exists p started,
    newPeer pc testNodeInfo testReactors msgTypes [PeerMetrics NopMetrics]
      = Done (p, started) /\
    started = [go_readLoop testReactors msgTypes] /\
    IsRunning p = false /\
    exists p', Start p = (None, p', [@go_metricsReporter testMsg string]) /\
               IsRunning p' = true.
Proof.
  intros msgTypes pc. eexists _, _. split; [reflexivity|].
  destruct (newPeer_starts_readLoop pc testNodeInfo testReactors msgTypes
              [PeerMetrics NopMetrics] _ _ eq_refl)
    as (Hstarted & _ & Hnot & p' & Hstart & _ & Hrun).
  - repeat constructor.
  - split; [exact Hstarted|]. split; [exact Hnot|].
    exists p'. split; [exact Hstart | exact Hrun].
Defined.

(** C5 as stated fails.  The read loop runs from the construction of
    the peer on, before [Start].  When a read fails then, the loop logs,
    calls [Stop] and returns, but the peer, which is not Running, is not
    stopped: it is still Created and its connection has not been
    closed. *)
Lemma read_error_before_Start :
  let c := newMockConn [(0, Some "EOF", [])] writesAll in
  let msgTypes : gmap byte testMsg := {[ Byte.x20 := Packet None ]} in
  exists p p2,
    wrapPeer c testNodeInfo (testConfig true) None
      = Done (p, [go_readLoop testReactors msgTypes]) /\
    service.state (BaseService p) = service.Created /\
    readLoop [[(Byte.x20, "H")]] msgTypes p [] = Return p2 [] /\
    service.state (BaseService p2) = service.Created /\
    service.state (BaseService p2) <> service.Stopped /\
    closed (Conn p2) = [].
Proof.
  intros c msgTypes. eexists _, _.
  split; [reflexivity|]. split; [reflexivity|].
  split; [vm_compute; reflexivity|].
  split; [reflexivity|]. split; [discriminate|reflexivity].
Qed.

Lemma readLoop_read_error_or_empty_witness :
  let msgTypes : gmap byte testMsg := {[ Byte.x20 := Packet None ]} in
  let failing :=
    testPeer service.Running (newMockConn [(0, Some "EOF", [])] writesAll) in
  let idle :=
    testPeer service.Running (newMockConn [(0, None, [])] writesAll) in
  (exists p2,
     readLoop [[(Byte.x20, "H")]] msgTypes failing [] = Return p2 [] /\
     service.state (BaseService p2) = service.Stopped /\
     closed (Conn p2) = ["stopping peer"]) /\
  rangeStreams msgTypes [(Byte.x20, "H")] idle []
    = Next (testPeer service.Running (newMockConn [] writesAll)) [].
Proof.
  intros msgTypes failing idle. split.
  - destruct (readLoop_read_error_or_empty msgTypes [] [] []
                Byte.x20 "H" failing [] failing [] 0 (Some "EOF") []
                (newMockConn [] writesAll)) as [Herr _];
      [reflexivity | reflexivity | reflexivity |].
    destruct Herr as (Hret & _ & Hstop); [discriminate|].
    destruct Hstop as (Hstate & Hconn & _); [reflexivity|].
    eexists. split; [exact Hret|]. split; [exact Hstate|].
    rewrite Hconn. reflexivity.
  - destruct (readLoop_read_error_or_empty msgTypes [] [] []
                Byte.x20 "H" idle [] idle [] 0 None []
                (newMockConn [] writesAll)) as [_ Hzero];
      [reflexivity | reflexivity | reflexivity |].
    destruct Hzero as [Hturn _]; [reflexivity | reflexivity |].
    exact Hturn.
Defined.

Lemma readLoop_decode_failure_panics_witness :
  let msgTypes : gmap byte testMsg := {[ Byte.x20 := Raw [] ]} in
  let truncated := [Byte.x0a; Byte.x05; Byte.x01] in
  let p := testPeer service.Running
             (newMockConn [(3, None, truncated)] writesAll) in
  exists reason,
    readLoop [[(Byte.x20, "H")]] msgTypes p [] = Panicked reason.
Proof.
  intros msgTypes truncated p.
  destruct (readLoop_decode_failure_panics msgTypes [] [] []
              Byte.x20 "H" p [] p [] 3 truncated
              (newMockConn [] writesAll) (Raw []))
    as (reason & _ & _ & Hloop).
  - reflexivity.
  - reflexivity.
  - reflexivity.
  - lia.
  - reflexivity.
  - left. vm_compute. discriminate.
  - exists reason. exact Hloop.
Defined.

Lemma HasChannel_iff_capability_witness :
  let msgTypes : gmap byte testMsg :=
    {[ Byte.x20 := Packet None; Byte.x30 := Raw [] ]} in
  let reactors : gmap byte string :=
    {[ Byte.x20 := "H"; Byte.x30 := "G" ]} in
  let pc := newPeerConn true false (newMockConn [] writesAll) None in
  let e := {| ChannelID := Byte.x30; Src := "peer0"; Message := Raw [] |} in
  exists p started,
    newPeer pc testNodeInfo reactors msgTypes [PeerMetrics NopMetrics]
      = Done (p, started) /\
    HasChannel p Byte.x20 = true /\
    HasChannel p Byte.x30 = false /\
    fst (Send e testNow (setState service.Running p)) = false /\
    written (Conn (snd (Send e testNow (setState service.Running p)))) = [].
Proof.
  intros msgTypes reactors pc e. eexists _, _. split; [reflexivity|].
  destruct (HasChannel_iff_capability pc testNodeInfo reactors msgTypes
              [PeerMetrics NopMetrics] _ _ _ eq_refl eq_refl)
    as [Hiff Hnot].
  - repeat constructor.
  - match goal with |- HasChannel ?x _ = _ /\ _ => set (p := x) in * end.
    split; [apply Hiff; left|].
    destruct (Hnot Byte.x30) as [Hno Hsend].
    { intros Hin. apply list_elem_of_singleton in Hin. discriminate. }
    split; [exact Hno|].
    destruct (Hsend (setState service.Running p) (Raw []) "peer0" testNow
                eq_refl) as (_ & HSend & _).
    split; [exact (f_equal fst HSend)|].
    exact (f_equal (fun r => written (Conn (snd r))) HSend).
Defined.

Lemma wrapPeer_persistent_witness :
  let c := newMockConn [] writesAll in
  (exists p started,
     wrapPeer c testNodeInfo (testConfig false) None = Done (p, started) /\
     IsOutbound p = false /\ IsPersistent p = true) /\
  (exists p started,
     wrapPeer c testNodeInfo (testConfig true) None = Done (p, started) /\
     IsOutbound p = true /\ IsPersistent p = false).
Proof.
  intros c. split.
  - destruct (wrapPeer_persistent c testNodeInfo (testConfig false) None)
      as [Hsome Hval].
    destruct (Hsome _ eq_refl) as (p & started & Hw).
    exists p, started. split; [exact Hw|]. exact (Hval p started Hw).
  - destruct (wrapPeer_persistent c testNodeInfo (testConfig true) None)
      as [Hsome Hval].
    destruct (Hsome _ eq_refl) as (p & started & Hw).
    exists p, started. split; [exact Hw|]. exact (Hval p started Hw).
Defined.


(* ===================================================================== *)
(** * Further properties of [state.CalculateDelay] *)
(* ===================================================================== *)

Lemma delay_arith_clamp ideal thr diff :
  0 <= thr <= ideal -> ideal + thr <= Int64.max -> Int64.valid diff ->
  (if thr <? time.Abs diff then
     if 0 <? diff then Int64.sub ideal thr else Int64.add ideal thr
   else Int64.sub ideal diff)
  = ideal - clamp (- thr) thr diff.
Proof.
  intros Hthr Hmax Hdiff.
  unfold time.Abs, Int64.sub, Int64.add, Int64.valid, clamp in *.
  unfold Int64.min, Int64.max in *.
  repeat case_match;
    repeat match goal with
    | H : (_ <? _) = _ |- _ => apply Z.ltb_lt in H || apply Z.ltb_ge in H
    | H : (_ <=? _) = _ |- _ => apply Z.leb_le in H || apply Z.leb_gt in H
    | H : (_ =? _) = _ |- _ => apply Z.eqb_eq in H || apply Z.eqb_neq in H
    end;
    rewrite Int64_wrap_id
      by (unfold Int64.valid, Int64.min, Int64.max; lia); lia.
Qed.

Lemma maxDeflection_bounds bt :
  0 <= bt <= Int64.max ->
  0 <= state.maxDeflection bt <= state.idealDelay bt.
Proof.
  intros Hbt. destruct (idealDelay_nonneg _ Hbt) as [-> ->].
  assert (bt / 10 <= bt) by (apply Z.div_le_upper_bound; lia).
  split; [apply Z.div_pos; lia | apply Z.div_le_upper_bound; lia].
Qed.

(** The result in closed form, for a store that loads and a chain whose
    drift fits an int64. *)
Lemma CalculateDelay_clamp_eq store blk st cp :
  state.Load store = (st, None) ->
  state.LoadConsensusParams store (Int64.sub (state.Height blk) 1)
    = (cp, None) ->
  time.IsZero (state.GenesisTime st) = false ->
  let bt := state.BlockTime (state.Block cp) in
  0 <= bt <= Int64.max ->
  state.idealDelay bt + state.maxDeflection bt <= Int64.max ->
  Int64.valid (scheduleDrift st cp blk) ->
  state.CalculateDelay store blk
  = state.idealDelay bt
    - clamp (- state.maxDeflection bt) (state.maxDeflection bt)
            (scheduleDrift st cp blk).
Proof.
  intros HL HP HZ bt Hbt Hmax Hdrift.
  rewrite (CalculateDelay_eq _ _ _ _ HL HP HZ). fold bt.
  change (Int64.sub (time.Sub (state.Time blk) (state.GenesisTime st))
                    (Int64.mul bt (Int64.sub (state.Height blk) 1)))
    with (Int64.wrap (scheduleDrift st cp blk)).
  rewrite (Int64_wrap_id _ Hdrift).
  apply delay_arith_clamp; [by apply maxDeflection_bounds|done|done].
Qed.

(** X1: when both loads succeed, the genesis time is nonzero, the block
    time is not negative, [ideal + threshold] fits an int64 and so does
    the drift (time since genesis minus expected duration), the delay is
    the ideal delay minus the drift, the drift being first brought into
    [-threshold .. threshold]; a chain exactly on schedule gets the
    ideal delay. *)
Theorem CalculateDelay_closed_form (store : state.Store)
    (blk : state.Block_) (st : state.State) (cp : state.ConsensusParams) :
  state.Load store = (st, None) ->
  state.LoadConsensusParams store (Int64.sub (state.Height blk) 1)
    = (cp, None) ->
  time.IsZero (state.GenesisTime st) = false ->
  let bt := state.BlockTime (state.Block cp) in
  0 <= bt <= Int64.max ->
  state.idealDelay bt + state.maxDeflection bt <= Int64.max ->
  Int64.valid (scheduleDrift st cp blk) ->
  state.CalculateDelay store blk
  = state.idealDelay bt
    - clamp (- state.maxDeflection bt) (state.maxDeflection bt)
            (scheduleDrift st cp blk)
  /\ (scheduleDrift st cp blk = 0 ->
      state.CalculateDelay store blk = state.idealDelay bt).
Proof.
  intros HL HP HZ bt Hbt Hmax Hdrift.
  pose proof (CalculateDelay_clamp_eq _ _ _ _ HL HP HZ Hbt Hmax Hdrift) as E.
  split; [exact E|]. intros H0. rewrite E, H0.
  pose proof (maxDeflection_bounds _ Hbt) as Hb.
  unfold clamp. subst bt. lia.
Qed.

Lemma CalculateDelay_closed_form_witness :
  let store := state.mockStore state.testGenesis time.Second None None in
  state.CalculateDelay store (state.testBlock (9 * time.Second + 50000000))
  = 900000000 - 50000000 /\
  state.CalculateDelay store (state.testBlock (9 * time.Second))
  = 900000000.
Proof.
  intros store. split.
  - refine (eq_trans
      (proj1 (CalculateDelay_closed_form store
                (state.testBlock (9 * time.Second + 50000000))
                _ _ eq_refl eq_refl eq_refl _ _ _)) _).
    + vm_compute. split; discriminate.
    + vm_compute. discriminate.
    + vm_compute. split; discriminate.
    + reflexivity.
  - refine (eq_trans
      (proj2 (CalculateDelay_closed_form store
                (state.testBlock (9 * time.Second))
                _ _ eq_refl eq_refl eq_refl _ _ _) _) _).
    + vm_compute. split; discriminate.
    + vm_compute. discriminate.
    + vm_compute. split; discriminate.
    + reflexivity.
    + reflexivity.
Defined.

Lemma time_Sub_mono t t' u :
  time.instant t <= time.instant t' -> time.Sub t u <= time.Sub t' u.
Proof.
  intros H. unfold time.Sub.
  repeat case_match;
    repeat match goal with
    | H : (_ <? _) = _ |- _ => apply Z.ltb_lt in H || apply Z.ltb_ge in H
    end; unfold Int64.min, Int64.max in *; lia.
Qed.

(** X2: of two current blocks of the same height, the one with the later
    timestamp gets the shorter (or the same) delay, under the conditions
    of the closed form. *)
Theorem CalculateDelay_antitone (store : state.Store)
    (blk blk' : state.Block_) (st : state.State)
    (cp : state.ConsensusParams) :
  state.Load store = (st, None) ->
  state.LoadConsensusParams store (Int64.sub (state.Height blk) 1)
    = (cp, None) ->
  time.IsZero (state.GenesisTime st) = false ->
  let bt := state.BlockTime (state.Block cp) in
  0 <= bt <= Int64.max ->
  state.idealDelay bt + state.maxDeflection bt <= Int64.max ->
  state.Height blk' = state.Height blk ->
  time.instant (state.Time blk) <= time.instant (state.Time blk') ->
  Int64.valid (scheduleDrift st cp blk) ->
  Int64.valid (scheduleDrift st cp blk') ->
  state.CalculateDelay store blk' <= state.CalculateDelay store blk.
Proof.
  intros HL HP HZ bt Hbt Hmax Hh Ht Hd Hd'.
  assert (HP' : state.LoadConsensusParams store
                  (Int64.sub (state.Height blk') 1) = (cp, None))
    by (by rewrite Hh).
  rewrite (CalculateDelay_clamp_eq _ _ _ _ HL HP HZ Hbt Hmax Hd).
  rewrite (CalculateDelay_clamp_eq _ _ _ _ HL HP' HZ Hbt Hmax Hd').
  assert (scheduleDrift st cp blk <= scheduleDrift st cp blk').
  { unfold scheduleDrift. rewrite Hh.
    pose proof (time_Sub_mono _ _ (state.GenesisTime st) Ht). lia. }
  unfold clamp. lia.
Qed.

Lemma CalculateDelay_antitone_witness :
  let store := state.mockStore state.testGenesis time.Second None None in
  state.CalculateDelay store (state.testBlock (9 * time.Second + 50000000))
  <= state.CalculateDelay store (state.testBlock (9 * time.Second)).
Proof.
  intros store.
  apply (CalculateDelay_antitone store
           (state.testBlock (9 * time.Second))
           (state.testBlock (9 * time.Second + 50000000))
           _ _ eq_refl eq_refl eq_refl).
  - vm_compute. split; discriminate.
  - vm_compute. discriminate.
  - reflexivity.
  - vm_compute. discriminate.
  - vm_compute. split; discriminate.
  - vm_compute. split; discriminate.
Defined.

(** X3: with a block time that is not negative (and [ideal + threshold]
    within int64) the delay is never negative, whatever the height and
    the timestamps are; it is at least four fifths of the ideal delay. *)
Theorem CalculateDelay_nonneg (store : state.Store) (blk : state.Block_)
    (st : state.State) (cp : state.ConsensusParams) :
  state.Load store = (st, None) ->
  state.LoadConsensusParams store (Int64.sub (state.Height blk) 1)
    = (cp, None) ->
  time.IsZero (state.GenesisTime st) = false ->
  let bt := state.BlockTime (state.Block cp) in
  0 <= bt <= Int64.max ->
  state.idealDelay bt + state.maxDeflection bt <= Int64.max ->
  0 <= state.CalculateDelay store blk /\
  4 * state.idealDelay bt <= 5 * state.CalculateDelay store blk.
Proof.
  intros HL HP HZ bt Hbt Hmax.
  pose proof (maxDeflection_bounds _ Hbt) as Hb. fold bt in Hb.
  assert (Hband : state.idealDelay bt - state.maxDeflection bt
                  <= state.CalculateDelay store blk
                  <= state.idealDelay bt + state.maxDeflection bt).
  { rewrite (CalculateDelay_eq _ _ _ _ HL HP HZ).
    apply CalculateDelay_band_arith; [done|done|apply Int64_wrap_valid]. }
  assert (5 * state.maxDeflection bt <= state.idealDelay bt).
  { destruct (idealDelay_nonneg _ Hbt) as [Hi Hd]. fold bt in Hi, Hd.
    rewrite Hd, Hi. apply Z.mul_div_le. lia. }
  lia.
Qed.

Lemma CalculateDelay_nonneg_witness :
  let store := state.mockStore state.testGenesis time.Second None None in
  0 <= state.CalculateDelay store (state.testBlock (- 5 * time.Second)).
Proof.
  intros store.
  apply (CalculateDelay_nonneg store (state.testBlock (- 5 * time.Second))
           _ _ eq_refl eq_refl eq_refl).
  - vm_compute. split; discriminate.
  - vm_compute. discriminate.
Defined.


(* ===================================================================== *)
(** * Further properties of the peer *)
(* ===================================================================== *)

Section ReadLoopFacts.

Context {C M R : Type} `{!Connection C} `{!ProtoMessage M}.
Context {handlers : @Reactor C M R}.

Implicit Types (p q : @peer C) (e : @Envelope M).
Implicit Types (received : list (R * @Envelope M)).
Implicit Types (IN IR : @peer C -> list (R * @Envelope M) -> Prop).

(** *** What the methods of the peer leave alone *)

Lemma sameIdentity_refl p : sameIdentity p p.
Proof. by repeat split. Qed.

Lemma sameIdentity_trans p q r :
  sameIdentity p q -> sameIdentity q r -> sameIdentity p r.
Proof.
  unfold sameIdentity. intros (?&?&?&?&?) (?&?&?&?&?).
  repeat split; congruence.
Qed.

Lemma send_frame streamID (msg : M) sendFunc p :
  let p' := (send streamID msg sendFunc p).2 in
  sameIdentity p p' /\
  metrics p' = metrics p /\
  removalAttemptFailed p' = removalAttemptFailed p /\
  service.state (BaseService p') = service.state (BaseService p).
Proof.
  unfold send.
  destruct (IsRunning p); simpl; [|by repeat split].
  destruct (HasChannel p streamID); simpl; [|by repeat split].
  destruct (Marshal _) as [msgBytes [err|]]; simpl; [by repeat split|].
  destruct (sendFunc streamID msgBytes (Conn p)) as [[n [err|]] c]; simpl;
    [by repeat split|].
  destruct (n =? len msgBytes); simpl; by repeat split.
Qed.

Lemma Stop_frame p :
  sameIdentity p (Stop p) /\ metrics (Stop p) = metrics p /\
  pendingMetrics (Stop p) = pendingMetrics p /\
  removalAttemptFailed (Stop p) = removalAttemptFailed p.
Proof.
  unfold Stop. destruct (service.state (BaseService p)); by repeat split.
Qed.

(** A call of a method of the peer leaves its identity and its counters
    alone; the removal flag is set by [SetRemovalFailed] and cleared by
    nothing. *)
Lemma performCall_frame (c : @call C M) p :
  let p' := performCall (R := R) c p in
  sameIdentity p p' /\ metrics p' = metrics p /\
  removalAttemptFailed p' = removalAttemptFailed p || marks c.
Proof.
  destruct c as [e now|e now| | | | | |l| |use]; simpl.
  - unfold Send.
    destruct (send_frame (ChannelID e) (Message e) Write
                (withConn (SetWriteDeadline
                             (time.Add now (10 * time.Second)) (Conn p)) p))
      as (Hid & Hm & Hr & _).
    split; [exact Hid|]. split; [exact Hm|]. by rewrite Hr, orb_false_r.
  - unfold TrySend.
    destruct (send_frame (ChannelID e) (Message e) Write
                (withConn (SetWriteDeadline
                             (time.Add now (100 * time.Millisecond))
                             (Conn p)) p))
      as (Hid & Hm & Hr & _).
    split; [exact Hid|]. split; [exact Hm|]. by rewrite Hr, orb_false_r.
  - unfold Start. destruct (service.state (BaseService p)); simpl;
      rewrite orb_false_r; by repeat split.
  - destruct (Stop_frame p) as (Hid & Hm & _ & Hr).
    split; [exact Hid|]. split; [exact Hm|]. by rewrite Hr, orb_false_r.
  - unfold OnStart. destruct (service.OnStart (BaseService p)); simpl;
      rewrite orb_false_r; by repeat split.
  - rewrite orb_false_r. by repeat split.
  - rewrite orb_false_r. by repeat split.
  - rewrite orb_false_r. by repeat split.
  - rewrite orb_true_r. by repeat split.
  - rewrite orb_false_r. by repeat split.
Qed.

Lemma performCalls_frame (calls : list (@call C M)) p :
  let p' := performCalls (R := R) calls p in
  sameIdentity p p' /\ metrics p' = metrics p /\
  removalAttemptFailed p' = removalAttemptFailed p || existsb marks calls.
Proof.
  revert p. induction calls as [|c calls IH]; intros p; simpl.
  - rewrite orb_false_r. split; [apply sameIdentity_refl|done].
  - destruct (performCall_frame c p) as (Hid & Hm & Hr).
    destruct (IH (performCall (R := R) c p)) as (Hid' & Hm' & Hr').
    split; [by eapply sameIdentity_trans|].
    split; [congruence|].
    unfold performCalls in *. simpl in *. rewrite Hr', Hr.
    by rewrite orb_assoc.
Qed.

Lemma existsb_marks (calls : list (@call C M)) :
  CallSetRemovalFailed ∉ calls -> existsb marks calls = false.
Proof.
  induction calls as [|c calls IH]; [done|].
  intros Hnot. simpl. rewrite IH.
  - destruct c; simpl; try done. exfalso. apply Hnot. left.
  - intros Hin. apply Hnot. by right.
Qed.

(** What a reactor does to the peer while it handles an envelope. *)
Lemma handle_frame (reactor : R) e p :
  sameIdentity p (handle reactor e p) /\
  metrics (handle reactor e p) = metrics p /\
  (removalAttemptFailed p = true ->
   removalAttemptFailed (handle reactor e p) = true) /\
  (neverMarks reactor ->
   removalAttemptFailed (handle reactor e p) = removalAttemptFailed p).
Proof.
  unfold handle.
  destruct (performCalls_frame (Receive reactor e p) p) as (Hid & Hm & Hr).
  split; [exact Hid|]. split; [exact Hm|]. split.
  - intros Hp. by rewrite Hr, Hp.
  - intros Hnever. rewrite Hr, existsb_marks; [by rewrite orb_false_r|].
    apply Hnever.
Qed.

Lemma handle_nodeInfo (reactor : R) e p :
  nodeInfo (handle reactor e p) = nodeInfo p.
Proof. by destruct (handle_frame reactor e p) as ((_ & -> & _) & _). Qed.

(** *** Invariants of the read loop *)

(** What the body of the loop keeps for the streams of a turn, the turn
    keeps. *)
Lemma rangeStreams_invariant IN IR (msgTypes : gmap byte M)
    (streams : list (byte * R)) :
  (forall streamID reactor p received,
     (streamID, reactor) ∈ streams -> IN p received ->
     iterationHolds IN IR (readStream msgTypes streamID reactor p received)) ->
  forall p received,
    IN p received ->
    iterationHolds IN IR (rangeStreams msgTypes streams p received).
Proof.
  induction streams as [|[streamID reactor] streams IH];
    intros Hstep p received HI; simpl; [done|].
  assert (Hbody : iterationHolds IN IR
                    (readStream msgTypes streamID reactor p received)).
  { apply Hstep; [left|done]. }
  destruct (readStream msgTypes streamID reactor p received)
    as [p' received'|p' received'|reason]; simpl in *; [|done|done].
  apply IH; [|done].
  intros streamID' reactor' q rec Hin Hq. apply Hstep; [by right|done].
Qed.

(** What the body of the loop keeps, [readLoop] keeps. *)
Lemma readLoop_invariant IN IR (msgTypes : gmap byte M)
    (passes : list (list (byte * R))) :
  (forall p received,
     IN p received -> service.QuitClosed (BaseService p) = true ->
     IR p received) ->
  (forall streamID reactor p received,
     (streamID, reactor) ∈ concat passes -> IN p received ->
     iterationHolds IN IR (readStream msgTypes streamID reactor p received)) ->
  forall p received,
    IN p received ->
    iterationHolds IN IR (readLoop passes msgTypes p received).
Proof.
  intros Hquit.
  induction passes as [|streams passes IH];
    intros Hstep p received HI; simpl; [done|].
  destruct (service.QuitClosed (BaseService p)) eqn:HQ; simpl; [by apply Hquit|].
  assert (Hturn : iterationHolds IN IR
                    (rangeStreams msgTypes streams p received)).
  { apply rangeStreams_invariant; [|done].
    intros streamID reactor q rec Hin Hq. apply Hstep; [|done].
    simpl. apply elem_of_app. by left. }
  destruct (rangeStreams msgTypes streams p received)
    as [p' received'|p' received'|reason]; simpl in *; [|done|done].
  apply IH; [|done].
  intros streamID reactor q rec Hin Hq. apply Hstep; [|done].
  simpl. apply elem_of_app. by right.
Qed.

(** The body of the loop leaves the identity of the peer and its
    counters alone and does not clear the removal flag; the flag is as
    before when the reactor of the stream never marks the peer
    ([unmarked]). *)
Lemma readStream_frame (unmarked : bool) (msgTypes : gmap byte M) streamID
    (reactor : R) p0 p received :
  let I := fun q (_ : list (R * @Envelope M)) =>
             sameIdentity p0 q /\ metrics q = metrics p0 /\
             (removalAttemptFailed p0 = true ->
              removalAttemptFailed q = true) /\
             (unmarked = true ->
              removalAttemptFailed q = removalAttemptFailed p0) in
  (unmarked = true -> neverMarks reactor) ->
  I p received ->
  iterationHolds I I (readStream msgTypes streamID reactor p received).
Proof.
  intros I Hnever (Hid & Hm & Hset & Heq).
  assert (Hstep : forall q' rec,
    sameIdentity p q' -> metrics q' = metrics p ->
    (removalAttemptFailed p = true -> removalAttemptFailed q' = true) ->
    (unmarked = true -> removalAttemptFailed q' = removalAttemptFailed p) ->
    I q' rec).
  { intros q' rec Hq Hqm Hqs Hqe. split; [|split; [|split]].
    - by eapply sameIdentity_trans.
    - congruence.
    - intros H0. apply Hqs. by apply Hset.
    - intros Hu. rewrite (Hqe Hu). by apply Heq. }
  unfold readStream.
  destruct (Read streamID (length (make 1024)) (Conn p))
    as [[[n err] data] c]. simpl.
  destruct err as [err|]; simpl.
  { set (q := logf "debug" "Error reading from stream" (withConn c p)).
    destruct (Stop_frame q) as (Hq & Hqm & _ & Hqr). apply Hstep.
    - eapply sameIdentity_trans; [|exact Hq]. by repeat split.
    - by rewrite Hqm.
    - intros H0. by rewrite Hqr.
    - intros _. by rewrite Hqr. }
  destruct (n =? 0); simpl.
  { apply Hstep; by repeat split. }
  destruct (msgTypes !! streamID) as [mt|]; simpl; [|done].
  destruct (slice_to _ n) as [b|]; simpl; [|done].
  destruct (Unmarshal b mt) as [msg [err|]]; simpl; [done|].
  assert (Hdeliver : forall (msg' : M) rec,
    I (handle reactor
         {| ChannelID := streamID; Src := ID (withConn c p);
            Message := msg' |}
         (withPendingMetrics
            (AddPendingRecvBytes (getMsgType msg') n
               (pendingMetrics (withConn c p))) (withConn c p))) rec).
  { intros msg' rec.
    set (q := withPendingMetrics _ (withConn c p)).
    destruct (handle_frame reactor
                {| ChannelID := streamID; Src := ID (withConn c p);
                   Message := msg' |} q) as (Hq & Hqm & Hqs & Hqe).
    apply Hstep.
    - eapply sameIdentity_trans; [|exact Hq]. by repeat split.
    - by rewrite Hqm.
    - intros H0. by apply Hqs.
    - intros Hu. rewrite Hqe; [done|by apply Hnever]. }
  destruct (asUnwrapper msg) as [[msg' [err|]]|]; simpl; [done| |];
    apply Hdeliver.
Qed.

Lemma readLoop_keeps (unmarked : bool) (passes : list (list (byte * R)))
    (msgTypes : gmap byte M) p received p' :
  (unmarked = true -> forall sr, sr ∈ concat passes -> neverMarks sr.2) ->
  iterationPeer (readLoop passes msgTypes p received) = Some p' ->
  sameIdentity p p' /\ metrics p' = metrics p /\
  (removalAttemptFailed p = true -> removalAttemptFailed p' = true) /\
  (unmarked = true -> removalAttemptFailed p' = removalAttemptFailed p).
Proof.
  intros Hnever Hres.
  set (I := fun q (_ : list (R * @Envelope M)) =>
              sameIdentity p q /\ metrics q = metrics p /\
              (removalAttemptFailed p = true ->
               removalAttemptFailed q = true) /\
              (unmarked = true ->
               removalAttemptFailed q = removalAttemptFailed p)).
  assert (Hinv : iterationHolds I I (readLoop passes msgTypes p received)).
  { apply readLoop_invariant.
    - intros q rec Hq _. exact Hq.
    - intros streamID reactor q rec Hin Hq.
      apply (readStream_frame unmarked msgTypes streamID reactor p q rec);
        [|exact Hq].
      intros Hu. exact (Hnever Hu (streamID, reactor) Hin).
    - split; [apply sameIdentity_refl|done]. }
  destruct (readLoop passes msgTypes p received)
    as [q received'|q received'|reason]; simpl in *; by simplify_eq.
Qed.

(** X4: whatever [readLoop] reads, whatever the reactors it delivers to
    do with the peer, and however it ends short of a panic, the peer it
    leaves has the channel list, node info, direction, persistence and
    socket address it had and the two cumulative counters are untouched.
    The removal flag is not cleared; it is as it was when none of the
    reactors visited calls [SetRemovalFailed]. *)
Theorem readLoop_frame (passes : list (list (byte * R)))
    (msgTypes : gmap byte M) p received p' :
  iterationPeer (readLoop passes msgTypes p received) = Some p' ->
  sameIdentity p p' /\
  (forall chID, HasChannel p' chID = HasChannel p chID) /\
  ID p' = ID p /\
  metrics p' = metrics p /\
  (GetRemovalFailed p = true -> GetRemovalFailed p' = true) /\
  ((forall sr, sr ∈ concat passes -> neverMarks sr.2) ->
   GetRemovalFailed p' = GetRemovalFailed p).
Proof.
  intros Hres.
  destruct (readLoop_keeps false _ _ _ _ _ ltac:(done) Hres)
    as ((Hch & Hni & Ho & Hp & Hs) & Hm & Hset & _).
  split; [by repeat split|].
  split; [intros chID; unfold HasChannel; by rewrite Hch|].
  split; [unfold ID; by rewrite Hni|].
  split; [done|]. split; [exact Hset|].
  intros Hnever.
  destruct (readLoop_keeps true _ _ _ _ _ (fun _ => Hnever) Hres)
    as (_ & _ & _ & Heq).
  by apply Heq.
Qed.

(** *** What the read loop hands over *)

Lemma readStream_received (msgTypes : gmap byte M) streamID (reactor : R)
    p received p' received' :
  iterationPeer (readStream msgTypes streamID reactor p received) = Some p' ->
  iterationReceived (readStream msgTypes streamID reactor p received)
    = Some received' ->
  nodeInfo p' = nodeInfo p /\
  exists new,
    received' = received ++ new /\ (length new <= 1)%nat /\
    Forall (fun re => re.1 = reactor /\ ChannelID re.2 = streamID /\
                      Src re.2 = ID p) new.
Proof.
  unfold readStream.
  destruct (Read streamID (length (make 1024)) (Conn p))
    as [[[n err] data] c]. simpl.
  destruct err as [err|]; simpl.
  { intros [= <-] [= <-]. split.
    - unfold Stop. simpl. by destruct (service.state (BaseService p)).
    - exists []. rewrite app_nil_r. split; [done|].
      split; [simpl; lia|constructor]. }
  destruct (n =? 0); simpl.
  { intros [= <-] [= <-]. split; [done|]. exists []. rewrite app_nil_r.
    split; [done|]. split; [simpl; lia|constructor]. }
  destruct (msgTypes !! streamID) as [mt|]; simpl; [|done].
  destruct (slice_to _ n) as [b|]; simpl; [|done].
  destruct (Unmarshal b mt) as [msg [err|]]; simpl; [done|].
  destruct (asUnwrapper msg) as [[msg' [err|]]|]; simpl; try done;
    intros [= <-] [= <-];
    (split; [by rewrite handle_nodeInfo|]);
    eexists [_];
    (split; [done|]); (split; [simpl; lia|]);
    by repeat constructor.
Qed.

Lemma rangeStreams_received (msgTypes : gmap byte M)
    (streams : list (byte * R)) p received p' received' :
  iterationPeer (rangeStreams msgTypes streams p received) = Some p' ->
  iterationReceived (rangeStreams msgTypes streams p received)
    = Some received' ->
  nodeInfo p' = nodeInfo p /\
  exists new,
    received' = received ++ new /\ (length new <= length streams)%nat /\
    Forall (fun re => (ChannelID re.2, re.1) ∈ streams /\ Src re.2 = ID p)
           new.
Proof.
  revert p received.
  induction streams as [|[streamID reactor] streams IH];
    intros p received; simpl.
  { intros [= <-] [= <-]. split; [done|]. exists []. rewrite app_nil_r.
    split; [done|]. split; [simpl; lia|constructor]. }
  pose proof (readStream_received msgTypes streamID reactor p received)
    as Hbody.
  destruct (readStream msgTypes streamID reactor p received)
    as [q rec|q rec|reason]; simpl in *; [| |done].
  - intros Hp Hr.
    destruct (Hbody q rec eq_refl eq_refl) as (Hni & new & -> & Hlen & Hall).
    destruct (IH q _ Hp Hr) as (Hni' & new' & -> & Hlen' & Hall').
    split; [congruence|]. exists (new ++ new'). rewrite app_assoc.
    split; [done|]. split; [rewrite length_app; lia|].
    apply Forall_app. split.
    + eapply Forall_impl; [exact Hall|]. intros [r e] (-> & <- & ?).
      split; [left|done].
    + eapply Forall_impl; [exact Hall'|]. intros [r e] (? & ?).
      split; [by right|]. unfold ID in *. congruence.
  - intros [= <-] [= <-].
    destruct (Hbody q rec eq_refl eq_refl) as (Hni & new & -> & Hlen & Hall).
    split; [done|]. exists new. split; [done|]. split; [lia|].
    eapply Forall_impl; [exact Hall|]. intros [r e] (-> & <- & ?).
    split; [left|done].
Qed.

(** X6: [readLoop] only adds to what has been handed to reactors: the
    envelopes handed over before stay, in their order; at most one
    envelope is added per visit of a stream; and each added envelope
    names this peer as [Src] and went to the reactor that the turn
    paired with the envelope's [ChannelID]. *)
Theorem readLoop_received (passes : list (list (byte * R)))
    (msgTypes : gmap byte M) p received p' received' :
  iterationPeer (readLoop passes msgTypes p received) = Some p' ->
  iterationReceived (readLoop passes msgTypes p received) = Some received' ->
  exists new,
    received' = received ++ new /\
    (length new <= length (concat passes))%nat /\
    Forall (fun re => (ChannelID re.2, re.1) ∈ concat passes /\
                      Src re.2 = ID p) new.
Proof.
  revert p received.
  induction passes as [|streams passes IH]; intros p received; simpl.
  { intros [= <-] [= <-]. exists []. rewrite app_nil_r.
    split; [done|]. split; [simpl; lia|constructor]. }
  destruct (service.QuitClosed (BaseService p)); simpl.
  { intros [= <-] [= <-]. exists []. rewrite app_nil_r.
    split; [done|]. split; [simpl; lia|constructor]. }
  pose proof (rangeStreams_received msgTypes streams p received) as Hturn.
  destruct (rangeStreams msgTypes streams p received)
    as [q rec|q rec|reason]; simpl in *; [| |done].
  - intros Hp Hr.
    destruct (Hturn q rec eq_refl eq_refl) as (Hni & new & -> & Hlen & Hall).
    destruct (IH q _ Hp Hr) as (new' & -> & Hlen' & Hall').
    exists (new ++ new'). rewrite app_assoc. split; [done|].
    split; [rewrite !length_app; lia|].
    apply Forall_app. split.
    + eapply Forall_impl; [exact Hall|]. intros [r e] (? & ?).
      split; [apply elem_of_app; by left|done].
    + eapply Forall_impl; [exact Hall'|]. intros [r e] (? & ?).
      split; [apply elem_of_app; by right|]. unfold ID in *. congruence.
  - intros [= <-] [= <-].
    destruct (Hturn q rec eq_refl eq_refl) as (Hni & new & -> & Hlen & Hall).
    exists new. split; [done|]. split; [rewrite length_app; lia|].
    eapply Forall_impl; [exact Hall|]. intros [r e] (? & ?).
    split; [apply elem_of_app; by left|done].
Qed.

(** *** Polling *)

(** X7: on a connection where every read, now and later, returns zero
    bytes and no error ([Idle] holds of the connection and of every
    connection a read leaves), the read loop of a Running peer neither
    returns nor panics, whatever the dispatch tables are: after any
    number of turns it is still running, nothing was handed over, and
    the base service, the cache and the counters are as they were. *)
Theorem readLoop_idle (Idle : C -> Prop) (passes : list (list (byte * R)))
    (msgTypes : gmap byte M) p received :
  (forall c streamID, Idle c ->
     exists data c', Read streamID 1024 c = ((0, None, data), c') /\ Idle c') ->
  IsRunning p = true ->
  Idle (Conn p) ->
  exists p',
    readLoop passes msgTypes p received = Next p' received /\
    BaseService p' = BaseService p /\
    pendingMetrics p' = pendingMetrics p /\
    metrics p' = metrics p /\
    Idle (Conn p').
Proof.
  intros Hidle Hrun.
  assert (Hturn : forall streams q,
    Idle (Conn q) ->
    exists q', rangeStreams msgTypes streams q received = Next q' received /\
               BaseService q' = BaseService q /\
               pendingMetrics q' = pendingMetrics q /\
               metrics q' = metrics q /\ Idle (Conn q')).
  { induction streams as [|[streamID reactor] streams IH]; intros q Hq; simpl.
    - by exists q.
    - destruct (Hidle _ streamID Hq) as (data & c' & HR & Hc').
      rewrite (readStream_zero _ _ _ _ _ _ _ HR).
      destruct (IH (withConn c' q) Hc') as (q' & -> & ? & ? & ? & ?).
      by exists q'. }
  assert (HQ : forall q, BaseService q = BaseService p ->
                 service.QuitClosed (BaseService q) = false).
  { intros q ->. unfold IsRunning, service.IsRunning in Hrun.
    apply bool_decide_eq_true in Hrun. unfold service.QuitClosed.
    by rewrite Hrun. }
  enough (Hgen : forall q, BaseService q = BaseService p -> Idle (Conn q) ->
    exists p', readLoop passes msgTypes q received = Next p' received /\
               BaseService p' = BaseService q /\
               pendingMetrics p' = pendingMetrics q /\
               metrics p' = metrics q /\ Idle (Conn p'))
    by (by apply Hgen).
  induction passes as [|streams passes IH]; intros q Hq Hc; simpl.
  - by exists q.
  - rewrite (HQ q Hq).
    destruct (Hturn streams q Hc) as (q' & -> & Hb & Hpm & Hm & Hc').
    destruct (IH q' ltac:(congruence) Hc') as (p' & -> & ? & ? & ? & ?).
    exists p'. repeat split; congruence.
Qed.

(** *** Reads the loop cannot decode *)

(** X8: when a read returns no error and a count that is negative or
    larger than the 1024 bytes of the buffer, on a stream with a
    registered prototype, [readLoop] panics on slicing the buffer. *)
Theorem readLoop_count_out_of_range (msgTypes : gmap byte M)
    (pre rest : list (byte * R)) (passes : list (list (byte * R)))
    streamID (reactor : R) p received p1 received1 n data c' mt :
  service.QuitClosed (BaseService p) = false ->
  rangeStreams msgTypes pre p received = Next p1 received1 ->
  Read streamID 1024 (Conn p1) = ((n, None, data), c') ->
  n < 0 \/ 1024 < n ->
  msgTypes !! streamID = Some mt ->
  readLoop ((pre ++ (streamID, reactor) :: rest) :: passes)
           msgTypes p received
  = Panicked "runtime error: slice bounds out of range".
Proof.
  intros HQ Hpre HR Hn Hmt. simpl. rewrite HQ.
  rewrite (rangeStreams_at _ _ _ _ _ _ _ _ _ Hpre).
  unfold readStream. change (length (make 1024)) with 1024%nat.
  rewrite HR. simpl. destruct (n =? 0) eqn:Hn0; [lia|].
  rewrite Hmt. unfold slice_to.
  assert (Hlen : len (store (make 1024) data) = 1024).
  { unfold len, store. rewrite length_app, length_take, length_drop.
    change (length (make 1024)) with 1024%nat. lia. }
  rewrite Hlen.
  destruct ((0 <=? n) && (n <=? 1024)) eqn:Hb; [|done].
  apply andb_true_iff in Hb as [H1 H2].
  apply Z.leb_le in H1, H2. lia.
Qed.

(** X9: a stream that has a reactor but no prototype in
    [msgTypeByStreamID] makes [readLoop] panic on the first read of that
    stream that returns bytes; reads of zero bytes on it do no harm. *)
Theorem readLoop_missing_prototype (msgTypes : gmap byte M)
    (pre rest : list (byte * R)) (passes : list (list (byte * R)))
    streamID (reactor : R) p received p1 received1 n data c' :
  service.QuitClosed (BaseService p) = false ->
  rangeStreams msgTypes pre p received = Next p1 received1 ->
  Read streamID 1024 (Conn p1) = ((n, None, data), c') ->
  msgTypes !! streamID = None ->
  (n <> 0 ->
   exists reason,
     readLoop ((pre ++ (streamID, reactor) :: rest) :: passes)
              msgTypes p received = Panicked reason) /\
  (n = 0 ->
   rangeStreams msgTypes (pre ++ (streamID, reactor) :: rest) p received
   = rangeStreams msgTypes rest (withConn c' p1) received1).
Proof.
  intros HQ Hpre HR Hmt. split.
  - intros Hn. simpl. rewrite HQ.
    rewrite (rangeStreams_at _ _ _ _ _ _ _ _ _ Hpre).
    unfold readStream. change (length (make 1024)) with 1024%nat.
    rewrite HR. simpl. destruct (n =? 0) eqn:Hn0; [lia|].
    rewrite Hmt. eauto.
  - intros ->. rewrite (rangeStreams_at _ _ _ _ _ _ _ _ _ Hpre).
    by rewrite (readStream_zero _ _ _ _ _ _ _ HR).
Qed.

End ReadLoopFacts.

Lemma readLoop_frame_witness :
  let p := testPeer service.Running
             (newMockConn [(6, None, testPingBytes); (0, Some "EOF", [])]
                          writesAll) in
  exists p',
    iterationPeer (readLoop [[(Byte.x20, "H")]; [(Byte.x20, "H")]]
                            {[ Byte.x20 := Packet None ]} p []) = Some p' /\
    HasChannel p' Byte.x20 = true /\ ID p' = "peer1" /\
    GetRemovalFailed p' = false.
Proof.
  intros p.
  destruct (iterationPeer (readLoop [[(Byte.x20, "H")]; [(Byte.x20, "H")]]
                             {[ Byte.x20 := Packet None ]} p []))
    as [p'|] eqn:E; [|vm_compute in E; discriminate].
  exists p'. split; [reflexivity|].
  destruct (readLoop_frame (R := string) _ _ p [] p' E)
    as (_ & Hch & Hid & _ & _ & Hflag).
  split; [rewrite Hch; reflexivity|]. split; [rewrite Hid; reflexivity|].
  rewrite Hflag; [reflexivity|].
  intros sr Hin e q. simpl in Hin.
  assert (Hsr : sr.2 = "H").
  { repeat (apply elem_of_cons in Hin as [->|Hin]); try reflexivity.
    by apply elem_of_nil in Hin. }
  rewrite Hsr. apply not_elem_of_nil.
Defined.

Lemma readLoop_received_witness :
  let p := testPeer service.Running
             (newMockConn [(6, None, testPingBytes); (0, Some "EOF", [])]
                          writesAll) in
  let old := [("G", testEnvelope (Raw []))] in
  exists received' new,
    iterationReceived
      (readLoop [[(Byte.x20, "H")]; [(Byte.x20, "H")]]
                {[ Byte.x20 := Packet None ]} p old) = Some received' /\
    received' = old ++ new /\ (length new <= 2)%nat.
Proof.
  intros p old.
  destruct (iterationPeer
              (readLoop [[(Byte.x20, "H")]; [(Byte.x20, "H")]]
                        {[ Byte.x20 := Packet None ]} p old))
    as [p'|] eqn:Ep; [|vm_compute in Ep; discriminate].
  destruct (iterationReceived
              (readLoop [[(Byte.x20, "H")]; [(Byte.x20, "H")]]
                        {[ Byte.x20 := Packet None ]} p old))
    as [received'|] eqn:Er; [|vm_compute in Er; discriminate].
  destruct (readLoop_received _ _ p old p' received' Ep Er)
    as (new & Hnew & Hlen & _).
  exists received', new. split; [reflexivity|]. split; [exact Hnew|exact Hlen].
Defined.

Lemma readLoop_idle_witness :
  let p := testPeer service.Running (newMockConn [] writesAll) in
  exists p',
    readLoop [[(Byte.x20, "H")]; [(Byte.x20, "H")]; [(Byte.x20, "H")]]
             {[ Byte.x20 := Packet None ]} p [] = Next p' [] /\
    BaseService p' = BaseService p.
Proof.
  intros p.
  destruct (readLoop_idle (R := string) (fun c => reads c = [])
              [[(Byte.x20, "H")]; [(Byte.x20, "H")]; [(Byte.x20, "H")]]
              {[ Byte.x20 := Packet None ]} p [])
    as (p' & Hloop & Hbs & _).
  - intros c streamID Hc. exists [], c. split; [|exact Hc].
    unfold Read, mockConn_Connection, mockConn_Read. rewrite Hc.
    reflexivity.
  - reflexivity.
  - reflexivity.
  - exists p'. split; [exact Hloop | exact Hbs].
Defined.

Lemma readLoop_count_out_of_range_witness :
  let p := testPeer service.Running
             (newMockConn [(2000, None, [])] writesAll) in
  readLoop [[(Byte.x20, "H")]] {[ Byte.x20 := Raw [] ]} p []
  = Panicked "runtime error: slice bounds out of range".
Proof.
  intros p.
  apply (readLoop_count_out_of_range (R := string)
           {[ Byte.x20 := Raw [] ]} [] [] [] Byte.x20 "H" p [] p []
           2000 [] (newMockConn [] writesAll) (Raw [])).
  - reflexivity.
  - reflexivity.
  - reflexivity.
  - right. lia.
  - reflexivity.
Defined.

Lemma readLoop_missing_prototype_witness :
  let p := testPeer service.Running
             (newMockConn [(3, None, [Byte.x0a; Byte.x01; Byte.x07])]
                          writesAll) in
  exists reason,
    readLoop [[(Byte.x20, "H")]] (∅ : gmap byte testMsg) p []
    = Panicked reason.
Proof.
  intros p.
  destruct (readLoop_missing_prototype (R := string)
              (∅ : gmap byte testMsg) [] [] [] Byte.x20 "H" p [] p []
              3 [Byte.x0a; Byte.x01; Byte.x07]
              (newMockConn [] writesAll)) as [Hpanic _].
  - reflexivity.
  - reflexivity.
  - reflexivity.
  - reflexivity.
  - apply Hpanic. lia.
Defined.

Section OperationFacts.

Context {C M R : Type} `{!Connection C} `{!ProtoMessage M}.
Context {handlers : @Reactor C M R}.

Implicit Types (p q : @peer C) (e : @Envelope M).

(** *** What a send logs *)

(** X10: a [Send] or [TrySend] that fails on a Running peer that has the
    channel (the message does not encode, or the write fails or is
    short) adds exactly one entry to the log, at level error; a send
    that succeeds, or that is refused because the peer is not Running or
    lacks the channel, logs nothing. *)
Theorem Send_TrySend_log (try : bool) e (now : time.Time) p :
  let op := if try then TrySend else Send in
  let before := service.Logger (BaseService p) in
  let after := service.Logger (BaseService (op e now p).2) in
  ((op e now p).1 = true \/ IsRunning p = false \/
   HasChannel p (ChannelID e) = false -> after = before) /\
  ((op e now p).1 = false -> IsRunning p = true ->
   HasChannel p (ChannelID e) = true ->
   exists txt,
     after = before ++ [ {| service.level := "error";
                            service.text := txt |} ]).
Proof.
  intros op before after. subst op before after.
  set (d := if try then 100 * time.Millisecond else 10 * time.Second).
  set (p0 := withConn (SetWriteDeadline (time.Add now d) (Conn p)) p).
  assert (Hop : (if try then TrySend else Send) e now p
                = send (ChannelID e) (Message e) Write p0)
    by (subst p0 d; by destruct try).
  rewrite Hop. unfold send.
  change (IsRunning p0) with (IsRunning p).
  change (HasChannel p0 (ChannelID e)) with (HasChannel p (ChannelID e)).
  destruct (IsRunning p); simpl; [|split; [done|intros; done]].
  destruct (HasChannel p (ChannelID e)); simpl; [|split; [done|intros; done]].
  destruct (Marshal _) as [msgBytes [err|]]; simpl.
  { split; [intros [?|[?|?]]; done | eauto]. }
  destruct (Write (ChannelID e) msgBytes (Conn p0)) as [[n [err|]] c]; simpl.
  { split; [intros [?|[?|?]]; done | eauto]. }
  destruct (n =? len msgBytes); simpl.
  - split; [done | intros; done].
  - split; [intros [?|[?|?]]; done | eauto].
Qed.

(** *** What [FlushStop] leaves running *)

(** X11: [FlushStop] flushes and closes the connection and nothing else:
    the lifecycle state is as before, so a Running peer is still Running
    and a [Send] after it is not refused but goes to the transport: it
    succeeds exactly when the write on the closed connection takes the
    whole message. *)
Theorem FlushStop_keeps_running e (now : time.Time) p :
  let q := FlushStop p in
  let msg := if asWrapper (Message e) is Some w then w else Message e in
  let c := SetWriteDeadline (time.Add now (10 * time.Second))
             (FlushAndClose "stopping peer" (Conn p)) in
  BaseService q = BaseService p /\
  Conn q = FlushAndClose "stopping peer" (Conn p) /\
  (IsRunning p = true -> HasChannel p (ChannelID e) = true ->
   (Marshal msg).2 = None ->
   ((Send e now q).1 = true <->
    (Write (ChannelID e) (Marshal msg).1 c).1
    = (len (Marshal msg).1, None))).
Proof.
  intros q msg c. split; [done|]. split; [done|].
  intros Hrun Hch HM. unfold Send, send.
  change (IsRunning _) with (IsRunning p).
  change (HasChannel _ (ChannelID e)) with (HasChannel p (ChannelID e)).
  rewrite Hrun, Hch. simpl. fold msg.
  destruct (Marshal msg) as [msgBytes merr]. simpl in *. subst merr.
  change (Conn (withConn _ q)) with c.
  destruct (Write (ChannelID e) msgBytes c) as [[n [err|]] c']; simpl.
  - split; [done | intros [=]].
  - destruct (n =? len msgBytes) eqn:Hn; simpl.
    + apply Z.eqb_eq in Hn. subst. done.
    + apply Z.eqb_neq in Hn. split; [done | intros [=]; done].
Qed.

(** *** Sequences of operations *)

Lemma isSetRemovalFailed_marks (c : @call C M) :
  isSetRemovalFailed (R := R) (OpCall c) = marks c.
Proof. by destruct c. Qed.

Lemma perform_keeps (unmarked : bool) (op : @operation C M R) p p' :
  (unmarked = true -> forall r, r ∈ reactorsOf [op] -> neverMarks r) ->
  perform op p = Some p' ->
  sameIdentity p p' /\
  (removalAttemptFailed p = true -> removalAttemptFailed p' = true) /\
  (unmarked = true ->
   removalAttemptFailed p' = removalAttemptFailed p || isSetRemovalFailed op).
Proof.
  intros Hnever.
  destruct op as [c|passes msgTypes|]; cbn [perform].
  - intros [= <-].
    destruct (performCall_frame (R := R) c p) as (Hid & _ & Hr).
    split; [exact Hid|]. split.
    + intros Hp. by rewrite Hr, Hp.
    + intros _. by rewrite isSetRemovalFailed_marks.
  - intros Hres.
    assert (Hvisited : unmarked = true ->
              forall sr, sr ∈ concat passes -> neverMarks sr.2).
    { intros Hu sr Hin. apply (Hnever Hu). simpl. rewrite app_nil_r.
      by apply list_elem_of_fmap_2. }
    destruct (readLoop_keeps unmarked _ _ _ _ _ Hvisited Hres)
      as (Hid & _ & Hset & Heq).
    split; [exact Hid|]. split; [exact Hset|].
    intros Hu. simpl. by rewrite (Heq Hu), orb_false_r.
  - unfold metricsReporterTick.
    destruct (flushCacheIn _ (pendingMetrics p) (metrics p)) as [[c m]|];
      simpl; [|done].
    intros [= <-]. split; [by repeat split|]. simpl.
    split; [done|]. by rewrite orb_false_r.
Qed.

(** X12: through any sequence of calls of the methods of the peer,
    read-loop turns (with whatever the reactors do with the peer while
    they handle a message) and reporter ticks, the channel list (so
    every answer of [HasChannel]), the node info (so [ID]), the
    direction, the persistence and the socket address of a peer stay
    what they were, and nothing clears the removal flag.  When none of
    the reactors the read loop visits calls [SetRemovalFailed],
    [GetRemovalFailed] is true afterwards exactly when it was true
    before or [SetRemovalFailed] was among the operations. *)
Theorem performAll_identity (ops : list (@operation C M R)) p p' :
  performAll ops p = Some p' ->
  sameIdentity p p' /\
  (forall chID, HasChannel p' chID = HasChannel p chID) /\
  ID p' = ID p /\
  (GetRemovalFailed p = true -> GetRemovalFailed p' = true) /\
  ((forall r, r ∈ reactorsOf ops -> neverMarks r) ->
   GetRemovalFailed p' = GetRemovalFailed p || existsb isSetRemovalFailed ops).
Proof.
  intros Hrun.
  enough (Hkeep : forall unmarked,
            (unmarked = true ->
             forall r, r ∈ reactorsOf ops -> neverMarks r) ->
            sameIdentity p p' /\
            (removalAttemptFailed p = true ->
             removalAttemptFailed p' = true) /\
            (unmarked = true ->
             removalAttemptFailed p' =
               removalAttemptFailed p || existsb isSetRemovalFailed ops)).
  { destruct (Hkeep false ltac:(done))
      as ((Hch & Hni & Ho & Hp & Hs) & Hset & _).
    split; [by repeat split|].
    split; [intros chID; unfold HasChannel; by rewrite Hch|].
    split; [unfold ID; by rewrite Hni|]. split; [exact Hset|].
    intros Hnever. destruct (Hkeep true (fun _ => Hnever)) as (_ & _ & Heq).
    by apply Heq. }
  intros unmarked.
  revert p Hrun. induction ops as [|op ops IH]; intros p Hrun Hnever;
    simpl in *.
  - simplify_eq. split; [apply sameIdentity_refl|].
    split; [done|]. intros _. by rewrite orb_false_r.
  - destruct (perform op p) as [q|] eqn:Hop; simpl in Hrun; [|done].
    destruct (perform_keeps unmarked _ _ _
                (fun Hu r Hin =>
                   Hnever Hu r ltac:(apply elem_of_app; left;
                                     simpl in Hin; by rewrite app_nil_r in Hin))
                Hop) as (Hid & Hset & Heq).
    destruct (IH q Hrun
                (fun Hu r Hin =>
                   Hnever Hu r ltac:(apply elem_of_app; by right)))
      as (Hid' & Hset' & Heq').
    split; [by eapply sameIdentity_trans|].
    split; [intros Hp; by apply Hset', Hset|].
    intros Hu. rewrite (Heq' Hu), (Heq Hu). by rewrite orb_assoc.
Qed.

(** *** Wiring *)

(** X14: [wrapPeer] panics when the node info is not an [ni.Default].
    A peer it returns comes from an [ni.Default] and holds the connection
    and the node info it was given, the channel list of the node info,
    the socket address it was given (for an inbound peer too, whatever
    address the node info reports), the metrics of the configuration,
    an empty pending-metrics cache and a clear removal flag; it is not
    Running, and the one goroutine started is the read loop over the
    tables of the configuration. *)
Theorem wrapPeer_wiring (c : C) (ni : NodeInfo) (cfg : peerConfig.t R M)
    (socketAddr : option NetAddr) :
  (NodeInfo_Default ni = None ->
   exists reason, wrapPeer c ni cfg socketAddr = Panic reason) /\
  (forall p started,
     wrapPeer c ni cfg socketAddr = Done (p, started) ->
     exists d,
       NodeInfo_Default ni = Some d /\
       channels p = Channels d /\
       NodeInfo_ p = ni /\
       Conn p = c /\
       SocketAddr p = socketAddr /\
       metrics p = peerConfig.metrics cfg /\
       pendingMetrics p = newPeerPendingMetricsCache /\
       GetRemovalFailed p = false /\
       IsRunning p = false /\
       started = [go_readLoop (peerConfig.reactorsByStreamID cfg)
                              (peerConfig.msgTypeByStreamID cfg)]).
Proof.
  split.
  - intros Hni. unfold wrapPeer, newPeer. rewrite Hni. eauto.
  - intros p started Hw. unfold wrapPeer in Hw.
    apply newPeer_inv in Hw as (d & Hd & -> & ->).
    exists d. by repeat split.
Qed.

End OperationFacts.

(* ===================================================================== *)
(** * Further properties of the drain *)
(* ===================================================================== *)

Lemma flushEntry_general entry m :
  exists rs rr,
    flushEntry entry m =
      (flushed entry,
       {| MessageSendBytesTotal := MessageSendBytesTotal m ++ rs;
          MessageReceiveBytesTotal := MessageReceiveBytesTotal m ++ rr |}) /\
    Forall (fun lv => 0 < lv.2) rs /\ Forall (fun lv => 0 < lv.2) rr /\
    (forall l,
       Counter_value l rs
       + (if bool_decide (label (flushed entry) = l)
          then pendingSendBytes (flushed entry) else 0)
       = (if bool_decide (label entry = l)
          then pendingSendBytes entry else 0)) /\
    (forall l,
       Counter_value l rr
       + (if bool_decide (label (flushed entry) = l)
          then pendingRecvBytes (flushed entry) else 0)
       = (if bool_decide (label entry = l)
          then pendingRecvBytes entry else 0)).
Proof.
  destruct entry as [lbl snd_ rcv], m as [ms mr].
  unfold flushed, flushEntry, Counter_Add. simpl.
  destruct (0 <? snd_) eqn:Hs, (0 <? rcv) eqn:Hr; simpl; rewrite ?Hr; simpl;
    repeat match goal with
    | H : (_ <? _) = true |- _ => apply Z.ltb_lt in H
    | H : (_ <? _) = false |- _ => apply Z.ltb_ge in H
    end.
  - exists [(lbl, snd_)], [(lbl, rcv)]. split; [done|].
    split; [by repeat constructor|]. split; [by repeat constructor|].
    split; intros l; simpl; case_bool_decide; lia.
  - exists [(lbl, snd_)], []. rewrite app_nil_r. split; [done|].
    split; [by repeat constructor|]. split; [constructor|].
    split; intros l; simpl; case_bool_decide; lia.
  - exists [], [(lbl, rcv)]. rewrite app_nil_r. split; [done|].
    split; [constructor|]. split; [by repeat constructor|].
    split; intros l; simpl; case_bool_decide; lia.
  - exists [], []. rewrite !app_nil_r. split; [done|].
    split; [constructor|]. split; [constructor|].
    split; intros l; simpl; case_bool_decide; lia.
Qed.

Lemma flushEntries_general order m :
  exists rs rr,
    flushEntries order m =
      (prod_map id flushed <$> order,
       {| MessageSendBytesTotal := MessageSendBytesTotal m ++ rs;
          MessageReceiveBytesTotal := MessageReceiveBytesTotal m ++ rr |}) /\
    Forall (fun lv => 0 < lv.2) rs /\ Forall (fun lv => 0 < lv.2) rr /\
    (forall l,
       Counter_value l rs
       + pendingUnder pendingSendBytes l (prod_map id flushed <$> order)
       = pendingUnder pendingSendBytes l order) /\
    (forall l,
       Counter_value l rr
       + pendingUnder pendingRecvBytes l (prod_map id flushed <$> order)
       = pendingUnder pendingRecvBytes l order).
Proof.
  revert m. induction order as [|[k entry] order IH]; intros m.
  - exists [], []. simpl. destruct m. rewrite !app_nil_r. by repeat split.
  - cbn [flushEntries].
    destruct (flushEntry_general entry m)
      as (rs & rr & -> & Hrs & Hrr & Hs & Hr).
    destruct (IH {| MessageSendBytesTotal := MessageSendBytesTotal m ++ rs;
                    MessageReceiveBytesTotal :=
                      MessageReceiveBytesTotal m ++ rr |})
      as (rs' & rr' & -> & Hrs' & Hrr' & Hs' & Hr').
    exists (rs ++ rs'), (rr ++ rr'). rewrite fmap_cons.
    change (prod_map id flushed (k, entry)) with (k, flushed entry).
    cbn [pendingUnder MessageSendBytesTotal MessageReceiveBytesTotal].
    rewrite !app_assoc.
    split; [done|]. split; [by apply Forall_app|].
    split; [by apply Forall_app|].
    split; intros l; rewrite Counter_value_app;
      [specialize (Hs l); specialize (Hs' l)
      |specialize (Hr l); specialize (Hr' l)]; lia.
Qed.

(** How a drain over an enumeration of the cache ends. *)
Lemma flushCacheIn_general order c m c' m' :
  order ≡ₚ map_to_list (perMessageCache c) ->
  flushCacheIn order c m = Some (c', m') ->
  mtx c = false /\ mtx c' = false /\
  perMessageCache c' = flushed <$> perMessageCache c /\
  exists rs rr,
    MessageSendBytesTotal m' = MessageSendBytesTotal m ++ rs /\
    MessageReceiveBytesTotal m' = MessageReceiveBytesTotal m ++ rr /\
    Forall (fun lv => 0 < lv.2) rs /\ Forall (fun lv => 0 < lv.2) rr /\
    (forall l,
       Counter_value l rs
       + pendingUnder pendingSendBytes l (map_to_list (perMessageCache c'))
       = pendingUnder pendingSendBytes l (map_to_list (perMessageCache c))) /\
    (forall l,
       Counter_value l rr
       + pendingUnder pendingRecvBytes l (map_to_list (perMessageCache c'))
       = pendingUnder pendingRecvBytes l (map_to_list (perMessageCache c))).
Proof.
  intros Hperm. unfold flushCacheIn, rangeCache, Lock.
  destruct (mtx c) eqn:Hm; simpl; [done|].
  destruct (flushEntries_general order m)
    as (rs & rr & -> & Hrs & Hrr & Hs & Hr).
  intros [= <- <-]. simpl.
  assert (Hmap : list_to_map (prod_map id flushed <$> order)
                 = flushed <$> perMessageCache c).
  { rewrite list_to_map_fmap. f_equal. symmetry.
    by apply list_to_map_flip. }
  assert (Hp' : map_to_list (flushed <$> perMessageCache c)
                ≡ₚ prod_map id flushed <$> order).
  { rewrite map_to_list_fmap. by rewrite Hperm. }
  split; [done|]. split; [done|]. split; [done|].
  exists rs, rr. split; [done|]. split; [done|].
  split; [done|]. split; [done|]. rewrite Hmap.
  split; intros l.
  - rewrite (pendingUnder_Permutation _ _ _ _ Hp').
    rewrite <- (pendingUnder_Permutation _ _ _ _ Hperm). apply Hs.
  - rewrite (pendingUnder_Permutation _ _ _ _ Hp').
    rewrite <- (pendingUnder_Permutation _ _ _ _ Hperm). apply Hr.
Qed.

(** X15: a drain loses and invents nothing, whatever the cache holds
    and in whatever order the entries are visited: for every label, what
    the counter holds plus what is pending under the label is the same
    after the drain as before, for sent and for received bytes. *)
Theorem drain_conserves
    (order : list (string * peerPendingMetricsCacheEntry))
    (c c' : peerPendingMetricsCache) (m m' : Metrics) :
  order ≡ₚ map_to_list (perMessageCache c) ->
  flushCacheIn order c m = Some (c', m') ->
  forall l,
    Counter_value l (MessageSendBytesTotal m')
    + pendingUnder pendingSendBytes l (map_to_list (perMessageCache c'))
    = Counter_value l (MessageSendBytesTotal m)
      + pendingUnder pendingSendBytes l (map_to_list (perMessageCache c))
    /\
    Counter_value l (MessageReceiveBytesTotal m')
    + pendingUnder pendingRecvBytes l (map_to_list (perMessageCache c'))
    = Counter_value l (MessageReceiveBytesTotal m)
      + pendingUnder pendingRecvBytes l (map_to_list (perMessageCache c)).
Proof.
  intros Hperm Hflush l.
  destruct (flushCacheIn_general _ _ _ _ _ Hperm Hflush)
    as (_ & _ & _ & rs & rr & -> & -> & _ & _ & Hs & Hr).
  rewrite !Counter_value_app. specialize (Hs l). specialize (Hr l). lia.
Qed.

(** X16: a drain keeps the message types of the cache and their labels;
    it resets the counts that are positive and leaves the others (zero
    or negative) as they are, so that no count is positive afterwards;
    and what it adds to the two counters are positive amounts only,
    added after what the counters already hold. *)
Theorem drain_resets_positive
    (order : list (string * peerPendingMetricsCacheEntry))
    (c c' : peerPendingMetricsCache) (m m' : Metrics) :
  order ≡ₚ map_to_list (perMessageCache c) ->
  flushCacheIn order c m = Some (c', m') ->
  (forall k, perMessageCache c' !! k = None <-> perMessageCache c !! k = None)
  /\
  (forall k entry,
     perMessageCache c !! k = Some entry ->
     exists entry',
       perMessageCache c' !! k = Some entry' /\
       label entry' = label entry /\
       pendingSendBytes entry'
         = (if 0 <? pendingSendBytes entry then 0
            else pendingSendBytes entry) /\
       pendingRecvBytes entry'
         = (if 0 <? pendingRecvBytes entry then 0
            else pendingRecvBytes entry) /\
       pendingSendBytes entry' <= 0 /\ pendingRecvBytes entry' <= 0)
  /\
  exists rs rr,
    MessageSendBytesTotal m' = MessageSendBytesTotal m ++ rs /\
    MessageReceiveBytesTotal m' = MessageReceiveBytesTotal m ++ rr /\
    Forall (fun lv => 0 < lv.2) rs /\ Forall (fun lv => 0 < lv.2) rr.
Proof.
  intros Hperm Hflush.
  destruct (flushCacheIn_general _ _ _ _ _ Hperm Hflush)
    as (_ & _ & Hc' & rs & rr & Hms & Hmr & Hrs & Hrr & _).
  split; [|split].
  - intros k. rewrite Hc', lookup_fmap.
    destruct (perMessageCache c !! k); simpl; split; done.
  - intros k entry Hk. exists (flushed entry).
    rewrite Hc', lookup_fmap, Hk. simpl. split; [done|].
    destruct entry as [lbl snd_ rcv]. unfold flushed, flushEntry. simpl.
    destruct (0 <? snd_) eqn:Hs, (0 <? rcv) eqn:Hr; simpl; rewrite ?Hr;
      simpl;
      repeat match goal with
      | H : (_ <? _) = true |- _ => apply Z.ltb_lt in H
      | H : (_ <? _) = false |- _ => apply Z.ltb_ge in H
      end; repeat split; lia.
  - by exists rs, rr.
Qed.


(* ===================================================================== *)
(** * The further properties on the test doubles *)
(* ===================================================================== *)

Lemma Send_TrySend_log_witness :
  let p := testPeer service.Running (newMockConn [] writeFails) in
  exists txt,
    service.Logger (BaseService (Send (testEnvelope testPing) testNow p).2)
    = [ {| service.level := "error"; service.text := txt |} ].
Proof.
  intros p.
  destruct (proj2 (Send_TrySend_log false (testEnvelope testPing) testNow p))
    as [txt Htxt].
  - reflexivity.
  - reflexivity.
  - reflexivity.
  - exists txt. exact Htxt.
Defined.

Lemma FlushStop_keeps_running_witness :
  let p := testPeer service.Running (newMockConn [] writesAll) in
  IsRunning (FlushStop p) = true /\
  (Send (testEnvelope testPing) testNow (FlushStop p)).1 = true.
Proof.
  intros p.
  destruct (FlushStop_keeps_running (testEnvelope testPing) testNow p)
    as (Hbs & _ & Hsend).
  split.
  - unfold IsRunning. rewrite Hbs. reflexivity.
  - apply Hsend; reflexivity.
Defined.

Lemma performAll_identity_witness :
  let p := testPeer service.Running
             (newMockConn [(6, None, testPingBytes)] writesAll) in
  let ops := [OpCall CallSetRemovalFailed;
              OpCall (CallSend (testEnvelope testPing) testNow);
              OpReadLoop [[(Byte.x20, "H")]] {[ Byte.x20 := Packet None ]};
              OpTick; OpCall CallStop; OpCall CallStart] in
  exists p',
    performAll ops p = Some p' /\
    HasChannel p' Byte.x20 = true /\ GetRemovalFailed p' = true.
Proof.
  intros p ops.
  destruct (performAll ops p) as [p'|] eqn:E; [|vm_compute in E; discriminate].
  exists p'. split; [reflexivity|].
  destruct (performAll_identity ops p p' E) as (_ & Hch & _ & _ & Hflag).
  split; [rewrite Hch; reflexivity|]. rewrite Hflag; [reflexivity|].
  intros r Hin e q. change (r ∈ ["H"]) in Hin.
  apply list_elem_of_singleton in Hin. rewrite Hin. apply not_elem_of_nil.
Defined.

Lemma wrapPeer_wiring_witness :
  let c := newMockConn [] writesAll in
  exists p started,
    wrapPeer c testNodeInfo (testConfig false) (Some testSocketAddr)
      = Done (p, started) /\
    SocketAddr p = Some testSocketAddr /\
    (NodeInfo_NetAddr (NodeInfo_ p)).1 <> Some testSocketAddr /\
    IsRunning p = false.
Proof.
  intros c.
  destruct (wrapPeer c testNodeInfo (testConfig false) (Some testSocketAddr))
    as [[p started]|reason] eqn:E; [|vm_compute in E; discriminate].
  exists p, started. split; [reflexivity|].
  destruct (proj2 (wrapPeer_wiring c testNodeInfo (testConfig false)
                     (Some testSocketAddr)) p started E)
    as (d & _ & _ & Hni & _ & Haddr & _ & _ & _ & Hrun & _).
  split; [exact Haddr|]. split; [rewrite Hni; discriminate | exact Hrun].
Defined.

Lemma drain_conserves_witness :
  exists c' m',
    flushCache testCache NopMetrics = Some (c', m') /\
    Counter_value "ping" (MessageSendBytesTotal m')
    + pendingUnder pendingSendBytes "ping"
        (map_to_list (perMessageCache c')) = 5 /\
    Counter_value "raw" (MessageSendBytesTotal m')
    + pendingUnder pendingSendBytes "raw"
        (map_to_list (perMessageCache c')) = -3.
Proof.
  destruct (flushCache testCache NopMetrics) as [[c' m']|] eqn:E;
    [|vm_compute in E; discriminate].
  exists c', m'. split; [reflexivity|]. unfold flushCache in E.
  pose proof (drain_conserves (map_to_list (perMessageCache testCache))
                testCache c' NopMetrics m' (reflexivity _) E) as H.
  split.
  - rewrite (proj1 (H "ping")). reflexivity.
  - rewrite (proj1 (H "raw")). reflexivity.
Defined.

Lemma drain_resets_positive_witness :
  exists c' m' entry',
    flushCache testCache NopMetrics = Some (c', m') /\
    perMessageCache c' !! "*Raw" = Some entry' /\
    pendingSendBytes entry' = -3 /\ pendingRecvBytes entry' = 0.
Proof.
  destruct (flushCache testCache NopMetrics) as [[c' m']|] eqn:E;
    [|vm_compute in E; discriminate].
  pose proof E as E'. unfold flushCache in E'.
  destruct (drain_resets_positive (map_to_list (perMessageCache testCache))
              testCache c' NopMetrics m' (reflexivity _) E')
    as (_ & Hentries & _).
  destruct (Hentries "*Raw" {| label := "raw"; pendingSendBytes := -3;
                               pendingRecvBytes := 7 |} eq_refl)
    as (entry' & Hk & _ & Hs & Hr & _).
  exists c', m', entry'. split; [reflexivity|]. split; [exact Hk|].
  split; [exact Hs | exact Hr].
Defined.

(* ===================================================================== *)
(** * Properties of the e2e runner's [Save] *)
(* ===================================================================== *)

Section SaveFacts.

Import runner.

Variable env : list call -> call -> response.
Variable Join : list string -> string.
Variable TrimSpace : string -> string.
Variable scanLines : list byte -> list string * error.

Local Abbreviation allOk := (allSucceeded env).
Local Abbreviation failed := (failedWith env).
Local Abbreviation logged new := (length (filter isLogError new)).
Local Abbreviation flag e := (if e is Some _ then 1%nat else 0%nat).

Lemma allSucceeded_nil h : allOk h [].
Proof. intros pre c post H. by destruct pre. Qed.

Lemma allSucceeded_cons h c new :
  (isChecked c = true -> err (env h c) = None) ->
  allOk (h ++ [c]) new -> allOk h (c :: new).
Proof.
  intros Hc Hnew pre c' post Heq Hchk.
  destruct pre as [|x pre]; simpl in Heq; simplify_eq.
  - rewrite app_nil_r. by apply Hc.
  - specialize (Hnew pre c' post eq_refl Hchk).
    by rewrite <- app_assoc in Hnew.
Qed.

Lemma allSucceeded_app h new1 new2 :
  allOk h new1 -> allOk (h ++ new1) new2 -> allOk h (new1 ++ new2).
Proof.
  revert h. induction new1 as [|c new1 IH]; intros h H1 H2; simpl.
  - by rewrite app_nil_r in H2.
  - apply allSucceeded_cons.
    + intros Hchk. specialize (H1 [] c new1 eq_refl Hchk).
      by rewrite app_nil_r in H1.
    + apply IH.
      * intros pre c' post Heq Hchk.
        specialize (H1 (c :: pre) c' post ltac:(by rewrite Heq) Hchk).
        by rewrite <- app_assoc.
      * by rewrite <- app_assoc.
Qed.

Lemma allSucceeded_unchecked h new :
  Forall (fun c => isChecked c = false) new -> allOk h new.
Proof.
  intros Hall pre c post -> Hchk.
  apply Forall_app in Hall as [_ Hall]. inversion Hall; congruence.
Qed.

Lemma failedWith_here e h c new :
  isChecked c = true -> err (env h c) = Some e -> failed e h (c :: new).
Proof. intros Hc He. exists [], c, new. by rewrite app_nil_r. Qed.

Lemma failedWith_cons e h c new :
  failed e (h ++ [c]) new -> failed e h (c :: new).
Proof.
  intros (pre & c' & post & -> & Hc & He).
  exists (c :: pre), c', post. by rewrite <- app_assoc in He.
Qed.

Lemma failedWith_app_r e h new1 new2 :
  failed e (h ++ new1) new2 -> failed e h (new1 ++ new2).
Proof.
  intros (pre & c' & post & -> & Hc & He).
  exists (new1 ++ pre), c', post. rewrite <- !app_assoc in *. done.
Qed.

Lemma failedWith_app_l e h new1 new2 :
  failed e h new1 -> failed e h (new1 ++ new2).
Proof.
  intros (pre & c' & post & -> & Hc & He).
  exists pre, c', (post ++ new2). by rewrite <- app_assoc.
Qed.

Lemma scanFailedAt_app_r c e h new1 new2 :
  scanFailedAt env scanLines c e (h ++ new1) new2 ->
  scanFailedAt env scanLines c e h (new1 ++ new2).
Proof.
  intros (pre & post & -> & He).
  exists (new1 ++ pre), post. rewrite <- !app_assoc in *. done.
Qed.

Lemma scanFailedAt_app_l c e h new1 new2 :
  scanFailedAt env scanLines c e h new1 ->
  scanFailedAt env scanLines c e h (new1 ++ new2).
Proof.
  intros (pre & post & -> & He).
  exists pre, (post ++ new2). by rewrite <- app_assoc.
Qed.

Lemma opened_app h new1 new2 :
  opened env h (new1 ++ new2)
  = opened env h new1 ++ opened env (h ++ new1) new2.
Proof.
  revert h. induction new1 as [|c new1 IH]; intros h; simpl.
  - by rewrite app_nil_r.
  - by rewrite IH, <- !app_assoc.
Qed.

Lemma opened_none h new :
  Forall (fun c => pathOpened c = None) new -> opened env h new = [].
Proof.
  intros Hall. revert h. induction Hall as [|c new Hc _ IH]; intros h; simpl.
  - done.
  - by rewrite Hc, IH.
Qed.

Lemma closed_app new1 new2 : closed (new1 ++ new2) = closed new1 ++ closed new2.
Proof. apply omap_app. Qed.

Lemma closed_Close deferred : closed (Close <$> deferred) = deferred.
Proof.
  induction deferred as [|f deferred IH]; [done|].
  rewrite fmap_cons. change (closed (Close f :: (Close <$> deferred)))
    with (f :: closed (Close <$> deferred)). by rewrite IH.
Qed.

Lemma filter_Close (P : call -> bool) deferred :
  (forall f, P (Close f) = false) -> filter P (Close <$> deferred) = [].
Proof.
  intros HP. induction deferred as [|f deferred IH]; [done|].
  rewrite fmap_cons, filter_cons. rewrite HP. simpl. exact IH.
Qed.

(** [copyFile]: the calls it adds and what they say about its result. *)
Lemma copyFile_spec source dest h :
  let run := copyFile env Join source dest h in
  exists new,
    run = (run.1, h ++ new) /\
    filter isCompose new = [] /\
    (length (filter isCopy new) <= 1)%nat /\
    filter isLogError new = [] /\
    opened env h new ≡ₚ closed new /\
    (forall e, run.1 = Some e -> failed e h new) /\
    (run.1 = None -> allOk h new /\ length (filter isCopy new) = 1%nat).
Proof.
  unfold copyFile, bind, perform, ret. simpl.
  destruct (err (env h (Open source))) as [e|] eqn:E1; simpl.
  { exists [Open source]. split; [done|]. split; [done|].
    split; [simpl; lia|]. split; [done|].
    split; [simpl; by rewrite E1|].
    split; [|intros [=]]. intros e' [= <-]. by apply failedWith_here. }
  destruct (err (env (h ++ [Open source])
                   (Create (Join [dest; "manifest.toml"]))))
    as [e|] eqn:E2; simpl.
  { eexists [_; _; _]. rewrite <- !app_assoc. simpl.
    split; [done|]. split; [done|]. split; [simpl; lia|]. split; [done|].
    split; [by rewrite E1, E2|].
    split; [|intros [=]]. intros e' [= <-].
    apply failedWith_cons. by apply failedWith_here. }
  eexists [_; _; _; _; _]. rewrite <- !app_assoc. simpl.
  split; [done|]. split; [done|]. split; [simpl; lia|]. split; [done|].
  split; [rewrite E1, E2; simpl; apply Permutation_swap|].
  split.
  { intros e' He'. do 2 apply failedWith_cons.
    apply failedWith_here; [done|]. by rewrite <- !app_assoc. }
  intros E3. split; [|done].
  apply allSucceeded_cons; [done|].
  apply allSucceeded_cons; [done|].
  apply allSucceeded_cons; [by rewrite <- !app_assoc|].
  apply allSucceeded_cons; [done|].
  apply allSucceeded_cons; [done|]. apply allSucceeded_nil.
Qed.

Lemma writeLines_spec logFile lines h :
  let run := writeLines env TrimSpace logFile lines h in
  exists new,
    run = (run.1, h ++ new) /\
    filter isCompose new = [] /\ filter isCopy new = [] /\
    Forall (fun c => pathOpened c = None) new /\ closed new = [] /\
    logged new = flag run.1 /\
    (forall e, run.1 = Some e -> failed e h new) /\
    (run.1 = None -> allOk h new).
Proof.
  revert h. induction lines as [|line lines IH]; intros h; simpl.
  { exists []. rewrite app_nil_r. repeat split; try done.
    intros _. apply allSucceeded_nil. }
  destruct (cut line) as [[before after]|]; [|apply IH].
  unfold bind, perform, ret. simpl.
  set (c := WriteString logFile (String.append (TrimSpace after) newline)).
  destruct (err (env h c)) as [e|] eqn:E; simpl.
  { eexists [_; _]. rewrite <- !app_assoc. simpl.
    split; [done|]. split; [done|]. split; [done|].
    split; [by repeat constructor|]. split; [done|]. split; [done|].
    split; [|intros [=]]. intros e' [= <-]. by apply failedWith_here. }
  destruct (IH (h ++ [c])) as (new & Hrun & Hcomp & Hcopy & Hop & Hcl & Hlog
                                 & Hfail & Hok).
  cbv zeta in Hrun, Hlog, Hfail, Hok.
  exists (c :: new). rewrite Hrun at 1. simpl. rewrite <- app_assoc. simpl.
  split; [done|]. split; [done|]. split; [done|].
  split; [by constructor|]. split; [done|]. split; [done|].
  split.
  { intros e' He'. apply failedWith_cons. by apply Hfail. }
  intros Hnone. apply allSucceeded_cons; [done|]. by apply Hok.
Qed.

(** The body of the loop over the nodes. *)
Lemma saveNode_spec testnet executionFolder node h :
  let run := saveNode env Join TrimSpace scanLines testnet executionFolder
               node h in
  exists new,
    run = (run.1, h ++ new) /\
    filter isCompose new `prefix_of` composeCalls testnet node /\
    (length (filter isCopy new) <= 1)%nat /\
    (forall f, run.1.2 = Some f -> f = logFileOf Join executionFolder node) /\
    logged new = flag run.1.1 /\
    opened env h new ≡ₚ closed new ++ option_list run.1.2 /\
    (forall e, run.1.1 = Some e ->
       failed e h new \/
       scanFailedAt env scanLines (logsCall testnet node) e h new) /\
    (run.1.1 = None ->
     allOk h new /\
     filter isCompose new = composeCalls testnet node /\
     length (filter isCopy new) = 1%nat /\
     run.1.2 = Some (logFileOf Join executionFolder node)).
Proof.
  unfold saveNode, logFileOf, logsCall, bind, perform, ret. simpl.
  set (lf := Join [Join [executionFolder; Node_Name node]; "docker.log"]).
  set (c1 := ExecComposeOutput (Dir testnet) ["pause"; Node_Name node]).
  set (c2 := ExecComposeOutput (Dir testnet) ["logs"; Node_Name node]).
  set (c3 := MkdirAll (Join [executionFolder; Node_Name node])).
  set (c4 := Create lf).
  destruct (err (env h c1)) as [e|] eqn:E1; simpl.
  { eexists [_; _]. rewrite <- !app_assoc. simpl. split; [done|].
    subst c1 c2 c3 c4. simpl. split; [by eexists [_]|].
    split; [lia|]. split; [intros f [=]|]. split; [done|]. split; [done|].
    split; [|intros [=]]. intros e' [= <-]. left. by apply failedWith_here. }
  destruct (err (env (h ++ [c1]) c2)) as [e|] eqn:E2; simpl.
  { eexists [_; _; _]. rewrite <- !app_assoc. simpl. split; [done|].
    subst c1 c2 c3 c4. simpl. split; [by exists []|].
    split; [lia|]. split; [intros f [=]|]. split; [done|]. split; [done|].
    split; [|intros [=]]. intros e' [= <-]. left.
    apply failedWith_cons. by apply failedWith_here. }
  destruct (err (env ((h ++ [c1]) ++ [c2]) c3)) as [e|] eqn:E3; simpl.
  { eexists [_; _; _; _]. rewrite <- !app_assoc. simpl. split; [done|].
    subst c1 c2 c3 c4. simpl. split; [by exists []|].
    split; [lia|]. split; [intros f [=]|]. split; [done|]. split; [done|].
    split; [|intros [=]]. intros e' [= <-]. left.
    do 2 apply failedWith_cons. by apply failedWith_here. }
  destruct (err (env (((h ++ [c1]) ++ [c2]) ++ [c3]) c4)) as [e|] eqn:E4;
    simpl.
  { eexists [_; _; _; _; _]. rewrite <- !app_assoc. simpl. split; [done|].
    subst c1 c2 c3 c4. simpl. split; [by exists []|].
    split; [lia|]. split; [intros f [=]|]. split; [done|].
    split; [by rewrite E4|].
    split; [|intros [=]]. intros e' [= <-]. left.
    do 3 apply failedWith_cons. by apply failedWith_here. }
  set (h4 := (((h ++ [c1]) ++ [c2]) ++ [c3]) ++ [c4]).
  assert (Hh4 : h4 = h ++ [c1; c2; c3; c4])
    by (subst h4; by rewrite <- !app_assoc).
  assert (Hok4 : allOk h [c1; c2; c3; c4]).
  { apply allSucceeded_cons; [done|].
    apply allSucceeded_cons; [done|].
    apply allSucceeded_cons; [done|].
    apply allSucceeded_cons; [done|]. apply allSucceeded_nil. }
  assert (Hcomp4 : filter isCompose [c1; c2; c3; c4]
                   = composeCalls testnet node) by done.
  assert (Hcopy4 : filter isCopy [c1; c2; c3; c4] = []) by done.
  assert (Hlog4 : filter isLogError [c1; c2; c3; c4] = []) by done.
  assert (Hcl4 : closed [c1; c2; c3; c4] = []) by done.
  assert (Hop4 : opened env h [c1; c2; c3; c4] = [lf]).
  { subst c1 c2 c3 c4. simpl. by rewrite E4. }
  clearbody c1 c2 c3 c4 h4.
  destruct (scanLines (output (env (h ++ [c1]) c2))) as [lines scanErr]
    eqn:Escan.
  destruct (writeLines_spec lf lines h4)
    as (newW & HrunW & HcompW & HcopyW & HopW & HclW & HlogW & HfailW & HokW).
  cbv zeta in HrunW, HlogW, HfailW, HokW.
  apply (opened_none h4) in HopW.
  rewrite HrunW.
  destruct ((writeLines env TrimSpace lf lines h4).1) as [e|] eqn:EW; simpl.
  { exists ([c1; c2; c3; c4] ++ newW). rewrite Hh4, <- app_assoc.
    split; [done|].
    rewrite !filter_app, opened_app, closed_app, !length_app, <- Hh4.
    rewrite HcompW, HcopyW, Hcomp4, Hcopy4, Hlog4, Hcl4, Hop4, HopW, HclW,
      HlogW.
    split; [by exists []|]. split; [simpl; lia|].
    split; [by intros f [= <-]|]. split; [done|]. split; [done|].
    split; [|intros [=]]. intros e' He'. left. rewrite Hh4 in HfailW.
    apply failedWith_app_r. by apply HfailW. }
  specialize (HokW eq_refl).
  destruct scanErr as [e|]; simpl.
  { exists ([c1; c2; c3; c4] ++ newW ++ [LogError "error scanning log file"]).
    rewrite Hh4, <- !app_assoc. split; [done|].
    rewrite !filter_app, !opened_app, !closed_app, !length_app, <- Hh4.
    rewrite HcompW, HcopyW, Hcomp4, Hcopy4, Hlog4, Hcl4, Hop4, HopW, HclW,
      HlogW.
    split; [by exists []|]. split; [simpl; lia|].
    split; [by intros f [= <-]|]. split; [done|]. split; [done|].
    split; [|intros [=]]. intros e' [= <-]. right.
    exists [c1], ([c3; c4] ++ newW ++ [LogError "error scanning log file"]).
    split; [done|]. by rewrite Escan. }
  set (c5 := Flush lf).
  destruct (err (env (h4 ++ newW) c5)) as [e|] eqn:E5; simpl.
  { exists ([c1; c2; c3; c4] ++ newW ++
            [c5; LogError "error flushing log file"]).
    rewrite Hh4, <- !app_assoc. split; [done|].
    rewrite !filter_app, !opened_app, !closed_app, !length_app, <- Hh4.
    rewrite HcompW, HcopyW, Hcomp4, Hcopy4, Hlog4, Hcl4, Hop4, HopW, HclW,
      HlogW.
    split; [by exists []|]. split; [simpl; lia|].
    split; [by intros f [= <-]|]. split; [done|]. split; [done|].
    split; [|intros [=]]. intros e' [= <-]. left.
    apply failedWith_app_r. rewrite <- Hh4. apply failedWith_app_r.
    by apply failedWith_here. }
  destruct (copyFile_spec (File testnet) executionFolder
              ((h4 ++ newW) ++ [c5]))
    as (newC & HrunC & HcompC & HcopyC & HlogC & HopC & HfailC & HokC).
  cbv zeta in HrunC, HfailC, HokC.
  rewrite HrunC.
  destruct ((copyFile env Join (File testnet) executionFolder
               ((h4 ++ newW) ++ [c5])).1) as [e|] eqn:EC; simpl.
  { exists ([c1; c2; c3; c4] ++ newW ++ [c5] ++ newC ++
            [LogError "error copying manifest file"]).
    rewrite Hh4, <- !app_assoc. split; [done|].
    rewrite !filter_app, !opened_app, !closed_app, !length_app, <- Hh4.
    rewrite HcompW, HcopyW, HcompC, HlogC, Hcomp4, Hcopy4, Hlog4, Hcl4, Hop4,
      HopW, HclW, HlogW, HopC.
    split; [by exists []|].
    split; [simpl; lia|].
    split; [by intros f [= <-]|]. split; [done|].
    split; [simpl; rewrite !app_nil_r; apply Permutation_cons_append|].
    split; [|intros [=]]. intros e' He'. left.
    apply failedWith_app_r. rewrite <- Hh4. apply failedWith_app_r.
    apply failedWith_app_r. apply failedWith_app_l. by apply HfailC. }
  destruct (HokC eq_refl) as [HokC' HoneC].
  exists ([c1; c2; c3; c4] ++ newW ++ [c5] ++ newC).
  rewrite Hh4, <- !app_assoc. split; [done|].
  rewrite !filter_app, !opened_app, !closed_app, !length_app, <- Hh4.
  rewrite HcompW, HcopyW, HcompC, HlogC, Hcomp4, Hcopy4, Hlog4, Hcl4, Hop4,
    HopW, HclW, HlogW, HopC.
  split; [by exists []|]. split; [simpl; lia|].
  split; [by intros f [= <-]|]. split; [done|].
  split; [simpl; apply Permutation_cons_append|].
  split; [intros e' [=]|]. intros _.
  split; [|by rewrite app_nil_r].
  apply allSucceeded_app; [done|]. rewrite <- Hh4.
  apply allSucceeded_app; [done|].
  apply allSucceeded_app;
    [apply allSucceeded_cons; [done|apply allSucceeded_nil]|].
  exact HokC'.
Qed.

Lemma closeAll_spec deferred h :
  closeAll env deferred h = (tt, h ++ (Close <$> deferred)).
Proof.
  revert h. induction deferred as [|f deferred IH]; intros h; simpl.
  - by rewrite app_nil_r.
  - unfold bind, perform. simpl. rewrite IH. by rewrite <- app_assoc.
Qed.

(** The loop over the nodes. *)
Lemma saveNodes_spec testnet executionFolder nodes deferred h :
  let run := saveNodes env Join TrimSpace scanLines testnet executionFolder
               nodes deferred h in
  exists new,
    run = (run.1, h ++ new) /\
    filter isCompose new `prefix_of` flat_map (composeCalls testnet) nodes /\
    (length (filter isCopy new) <= length nodes)%nat /\
    logged new = flag run.1.1 /\
    opened env h new ++ deferred ≡ₚ closed new ++ run.1.2 /\
    (forall e, run.1.1 = Some e ->
       failed e h new \/
       exists node, node ∈ nodes /\
         scanFailedAt env scanLines (logsCall testnet node) e h new) /\
    (run.1.1 = None ->
     allOk h new /\
     filter isCompose new = flat_map (composeCalls testnet) nodes /\
     length (filter isCopy new) = length nodes /\
     run.1.2 = reverse (logFileOf Join executionFolder <$> nodes) ++ deferred).
Proof.
  revert deferred h.
  induction nodes as [|node nodes IH]; intros deferred h.
  { exists []. simpl. unfold ret. simpl. rewrite app_nil_r.
    split; [done|]. split; [done|]. split; [lia|]. split; [done|].
    split; [done|]. split; [intros e [=]|]. intros _.
    split; [apply allSucceeded_nil|done]. }
  change (flat_map (composeCalls testnet) (node :: nodes))
    with (composeCalls testnet node ++ flat_map (composeCalls testnet) nodes).
  rewrite fmap_cons, reverse_cons, <- app_assoc.
  cbn [saveNodes length]. unfold bind.
  destruct (saveNode_spec testnet executionFolder node h)
    as (new1 & Hrun1 & Hpre1 & Hcopy1 & Hf1 & Hlog1 & Hop1 & Hfail1 & Hok1).
  cbv zeta in Hrun1, Hf1, Hlog1, Hop1, Hfail1, Hok1. rewrite Hrun1.
  destruct ((saveNode env Join TrimSpace scanLines testnet executionFolder
               node h).1) as [e opened1] eqn:E1.
  cbn [fst snd] in Hf1, Hlog1, Hop1, Hfail1, Hok1.
  destruct e as [e|].
  { exists new1. unfold ret. cbn [fst snd]. split; [done|].
    split; [by apply prefix_app_r|]. split; [lia|]. split; [done|].
    split.
    { rewrite Hop1, <- app_assoc. by destruct opened1. }
    split; [|intros [=]]. intros e' He'.
    destruct (Hfail1 e' He') as [Hf|Hs]; [by left|right].
    exists node. split; [left|done]. }
  destruct (Hok1 eq_refl) as (Hall1 & Hcomp1 & Hone1 & ->).
  destruct (IH ([logFileOf Join executionFolder node] ++ deferred) (h ++ new1))
    as (new2 & Hrun2 & Hpre2 & Hcopy2 & Hlog2 & Hop2 & Hfail2 & Hok2).
  cbv zeta in Hrun2, Hpre2, Hcopy2, Hlog2, Hop2, Hfail2, Hok2.
  rewrite Hrun2. cbn [fst snd].
  exists (new1 ++ new2). rewrite <- app_assoc. split; [done|].
  rewrite !filter_app, opened_app, closed_app, Hcomp1, !length_app, Hone1.
  split; [by apply prefix_app|]. split; [lia|].
  split; [rewrite Hlog1, Hlog2; done|].
  split.
  { rewrite Hop1, <- !app_assoc. f_equiv. rewrite <- Hop2.
    cbn [option_list]. rewrite !app_assoc. f_equiv.
    apply Permutation_app_comm. }
  split.
  { intros e' He'.
    destruct (Hfail2 e' He') as [Hf|(node' & Hin & Hs)]; [left|right].
    - by apply failedWith_app_r.
    - exists node'. split; [by right|]. by apply scanFailedAt_app_r. }
  intros Hnone. destruct (Hok2 Hnone) as (Hall2 & -> & -> & ->).
  split; [by apply allSucceeded_app|]. split; [done|]. split; [done|].
  done.
Qed.

(** The shape of a run of [Save]: the opening calls, the calls of the
    loop, the deferred calls. *)
Lemma Save_spec testnet h :
  let run := Save env Join TrimSpace scanLines testnet h in
  let folder := executionFolderOf env Join testnet h in
  exists body deferred,
    run = (run.1, h ++ (startCalls ++ [MkdirAll folder]) ++ body
                    ++ (Close <$> deferred)) /\
    filter isCompose body
      `prefix_of` flat_map (composeCalls testnet) (Nodes testnet) /\
    (length (filter isCopy body) <= length (Nodes testnet))%nat /\
    logged body = flag run.1 /\
    opened env h ((startCalls ++ [MkdirAll folder]) ++ body)
      ≡ₚ closed body ++ deferred /\
    (forall e, run.1 = Some e ->
       failed e h ((startCalls ++ [MkdirAll folder]) ++ body) \/
       exists node, node ∈ Nodes testnet /\
         scanFailedAt env scanLines (logsCall testnet node) e h
           ((startCalls ++ [MkdirAll folder]) ++ body)) /\
    (run.1 = None ->
     allOk h ((startCalls ++ [MkdirAll folder]) ++ body) /\
     filter isCompose body = flat_map (composeCalls testnet) (Nodes testnet) /\
     length (filter isCopy body) = length (Nodes testnet) /\
     deferred = reverse (logFileOf Join folder <$> Nodes testnet) /\
     last body = Some (LogInfo "saved execution"
                         "finished saving execution information")).
Proof.
  unfold Save, executionFolderOf, startCalls, bind, perform, ret.
  cbv zeta. cbn [fst snd].
  set (c1 := LogInfo _ _).
  set (folder := Join _).
  set (h3 := ((h ++ [c1]) ++ [Now]) ++ [MkdirAll folder]).
  assert (Hh3 : h3 = h ++ [c1; Now; MkdirAll folder])
    by (subst h3; by rewrite <- !app_assoc).
  assert (Hop3 : opened env h [c1; Now; MkdirAll folder] = []) by done.
  destruct (err (env ((h ++ [c1]) ++ [Now]) (MkdirAll folder)))
    as [e|] eqn:E.
  { exists [LogError "error creating executions folder"], [].
    cbn [fst snd]. fold h3. rewrite Hh3, <- !app_assoc.
    split; [done|]. split; [apply prefix_nil|]. split; [simpl; lia|].
    split; [done|]. split; [done|].
    split; [|intros [=]]. intros e' [= <-]. left.
    do 2 apply failedWith_cons. by apply failedWith_here. }
  assert (Hok3 : allOk h [c1; Now; MkdirAll folder]).
  { apply allSucceeded_cons; [done|].
    apply allSucceeded_cons; [done|].
    apply allSucceeded_cons; [done|]. apply allSucceeded_nil. }
  fold h3.
  destruct (saveNodes_spec testnet folder (Nodes testnet) [] h3)
    as (new & Hrun & Hpre & Hcopy & Hlog & Hop & Hfail & Hok).
  cbv zeta in Hrun, Hlog, Hop, Hfail, Hok. rewrite Hrun.
  destruct ((saveNodes env Join TrimSpace scanLines testnet folder
               (Nodes testnet) [] h3).1) as [e deferred] eqn:E'.
  cbn [fst snd] in Hlog, Hop, Hfail, Hok. rewrite app_nil_r in Hop.
  change ([c1; Now] ++ [MkdirAll folder]) with [c1; Now; MkdirAll folder].
  destruct e as [e|]; cbn [fst snd]; rewrite closeAll_spec; cbn [fst snd].
  - exists new, deferred. rewrite Hh3, <- !app_assoc.
    split; [done|]. split; [done|]. split; [done|]. split; [done|].
    split; [by rewrite opened_app, Hop3, <- Hh3|].
    split; [|intros [=]]. intros e' He'.
    destruct (Hfail e' He') as [Hf|(node & Hin & Hs)]; [left|right].
    + apply failedWith_app_r. by rewrite <- Hh3.
    + exists node. split; [done|].
      apply scanFailedAt_app_r. by rewrite <- Hh3.
  - destruct (Hok eq_refl) as (Hall & Hcomp & Hone & Hdef).
    rewrite app_nil_r in Hdef.
    exists (new ++ [LogInfo "saved execution"
                      "finished saving execution information"]), deferred.
    rewrite Hh3, <- !app_assoc. split; [done|].
    rewrite !filter_app, Hcomp, !length_app, Hlog. simpl. rewrite !app_nil_r.
    split; [done|]. split; [lia|]. split; [done|].
    split.
    { fold h3. rewrite opened_app, Hop, closed_app. simpl.
      by rewrite !app_nil_r. }
    split; [intros e' [=]|]. intros _.
    split; [|split; [done|split; [lia|split; [done|apply last_snoc]]]].
    change (c1 :: Now :: MkdirAll folder :: new ++ [LogInfo "saved execution"
                      "finished saving execution information"])
      with ([c1; Now; MkdirAll folder] ++ new ++ [LogInfo "saved execution"
                      "finished saving execution information"]).
    apply allSucceeded_app; [done|]. rewrite <- Hh3.
    apply allSucceeded_app; [done|].
    apply allSucceeded_cons; [done|apply allSucceeded_nil].
Qed.

(** The calls a run of [Save] adds, from its shape. *)
Lemma Save_added testnet h body deferred :
  Save env Join TrimSpace scanLines testnet h
    = ((Save env Join TrimSpace scanLines testnet h).1,
       h ++ (startCalls ++ [MkdirAll (executionFolderOf env Join testnet h)])
         ++ body ++ (Close <$> deferred)) ->
  added (Save env Join TrimSpace scanLines testnet) h
    = (startCalls ++ [MkdirAll (executionFolderOf env Join testnet h)])
        ++ body ++ (Close <$> deferred).
Proof. intros Hrun. unfold added. rewrite Hrun. apply drop_app_length. Qed.

(** X17: what [Save] asks of docker compose, whatever the environment
    answers and however [Save] ends: to pause a node's container, then
    to give that node's logs, node after node in the order of the
    testnet, up to the point where [Save] stops; nothing else is asked
    (no container is unpaused).  When [Save] returns nil every node was
    paused and read. *)
Theorem Save_compose_calls (testnet : Testnet) (h : list call) :
  let run := Save env Join TrimSpace scanLines testnet h in
  let new := added (Save env Join TrimSpace scanLines testnet) h in
  run.2 = h ++ new /\
  filter isCompose new
    `prefix_of` flat_map (composeCalls testnet) (Nodes testnet) /\
  (run.1 = None ->
   filter isCompose new = flat_map (composeCalls testnet) (Nodes testnet)).
Proof.
  destruct (Save_spec testnet h) as (body & deferred & Hrun & Hpre & _ & _
                                       & _ & _ & Hok).
  cbv zeta in *. rewrite (Save_added _ _ _ _ Hrun). rewrite Hrun at 1.
  split; [done|].
  rewrite !filter_app, (filter_Close isCompose) by done.
  simpl. rewrite app_nil_r. split; [done|].
  intros Hnone. by destruct (Hok Hnone) as (_ & -> & _).
Qed.

(** X18: when [Save] returns nil, every call it made whose error it
    looks at (creating a folder or a file, a docker compose command, a
    write, the flush, opening and copying the manifest) was answered
    without an error. *)
Theorem Save_nil_all_succeeded (testnet : Testnet) (h : list call) :
  (Save env Join TrimSpace scanLines testnet h).1 = None ->
  allSucceeded env h (added (Save env Join TrimSpace scanLines testnet) h).
Proof.
  intros Hnone.
  destruct (Save_spec testnet h) as (body & deferred & Hrun & _ & _ & _ & _
                                       & _ & Hok).
  cbv zeta in *. rewrite (Save_added _ _ _ _ Hrun).
  destruct (Hok Hnone) as (Hall & _).
  rewrite app_assoc. apply allSucceeded_app; [done|].
  apply allSucceeded_unchecked. clear.
  induction deferred as [|f deferred IH]; by constructor.
Qed.

(** X19: an error [Save] returns is the error of a call it made and
    checked, or the error the scanner reported for the logs docker
    returned, in this run, for a node of the testnet; [Save] invents
    none. *)
Theorem Save_error_source (testnet : Testnet) (h : list call) (e : string) :
  (Save env Join TrimSpace scanLines testnet h).1 = Some e ->
  failedWith env e h (added (Save env Join TrimSpace scanLines testnet) h) \/
  exists node,
    node ∈ Nodes testnet /\
    scanFailedAt env scanLines (logsCall testnet node) e h
      (added (Save env Join TrimSpace scanLines testnet) h).
Proof.
  intros Hsome.
  destruct (Save_spec testnet h) as (body & deferred & Hrun & _ & _ & _ & _
                                       & Hfail & _).
  cbv zeta in *. rewrite (Save_added _ _ _ _ Hrun).
  destruct (Hfail e Hsome) as [Hf|(node & Hin & Hs)]; [left|right].
  - rewrite app_assoc. by apply failedWith_app_l.
  - exists node. split; [done|].
    rewrite app_assoc. by apply scanFailedAt_app_l.
Qed.

(** X20: [Save] logs an error exactly when it returns one, and then
    exactly once. *)
Theorem Save_logs_error_once (testnet : Testnet) (h : list call) :
  length (filter isLogError
            (added (Save env Join TrimSpace scanLines testnet) h))
  = if (Save env Join TrimSpace scanLines testnet h).1 is Some _
    then 1%nat else 0%nat.
Proof.
  destruct (Save_spec testnet h) as (body & deferred & Hrun & _ & _ & Hlog
                                       & _).
  cbv zeta in *. rewrite (Save_added _ _ _ _ Hrun).
  rewrite !filter_app, (filter_Close isLogError) by done.
  rewrite !length_app, Hlog. simpl. lia.
Qed.

(** X21: the files [Save] has opened with success ([os.Create] of a
    node's log and of the manifest copy, [os.Open] of the manifest) are
    the files it closes before it returns, each as many times as it was
    opened: on every path, also when [Save] returns an error half way. *)
Theorem Save_closes_what_it_opened (testnet : Testnet) (h : list call) :
  opened env h (added (Save env Join TrimSpace scanLines testnet) h)
  ≡ₚ closed (added (Save env Join TrimSpace scanLines testnet) h).
Proof.
  destruct (Save_spec testnet h) as (body & deferred & Hrun & _ & _ & _
                                       & Hop & _).
  cbv zeta in *. rewrite (Save_added _ _ _ _ Hrun).
  rewrite app_assoc, opened_app, Hop.
  rewrite (opened_none _ (Close <$> deferred)).
  2:{ clear. induction deferred as [|f deferred IH]; by constructor. }
  rewrite !closed_app, closed_Close, app_nil_r.
  replace (closed (startCalls ++
             [MkdirAll (executionFolderOf env Join testnet h)]))
    with (@nil string) by done.
  done.
Qed.

(** X22: [Save] copies the manifest once for every node it has saved:
    never more often than the testnet has nodes, and once per node when
    it returns nil (so never for a testnet without nodes). *)
Theorem Save_manifest_copies (testnet : Testnet) (h : list call) :
  let new := added (Save env Join TrimSpace scanLines testnet) h in
  (length (filter isCopy new) <= length (Nodes testnet))%nat /\
  ((Save env Join TrimSpace scanLines testnet h).1 = None ->
   length (filter isCopy new) = length (Nodes testnet)).
Proof.
  destruct (Save_spec testnet h) as (body & deferred & Hrun & _ & Hcopy & _
                                       & _ & _ & Hok).
  cbv zeta in *. rewrite (Save_added _ _ _ _ Hrun).
  rewrite !filter_app, (filter_Close isCopy) by done.
  rewrite !length_app. simpl. split; [lia|].
  intros Hnone. destruct (Hok Hnone) as (_ & _ & -> & _). lia.
Qed.

(** X23: the log files stay open until the loop is over: when [Save]
    returns nil, the last calls it makes close the log file of every
    node, the last node's first. *)
Theorem Save_closes_logs_last (testnet : Testnet) (h : list call) :
  (Save env Join TrimSpace scanLines testnet h).1 = None ->
  exists before,
    added (Save env Join TrimSpace scanLines testnet) h
    = before ++
      (Close <$> reverse (logFileOf Join (executionFolderOf env Join testnet h)
                            <$> Nodes testnet)) /\
    last before = Some (LogInfo "saved execution"
                          "finished saving execution information").
Proof.
  intros Hnone.
  destruct (Save_spec testnet h) as (body & deferred & Hrun & _ & _ & _ & _
                                       & _ & Hok).
  cbv zeta in *. rewrite (Save_added _ _ _ _ Hrun).
  destruct (Hok Hnone) as (_ & _ & _ & -> & Hlast).
  exists ((startCalls ++ [MkdirAll (executionFolderOf env Join testnet h)])
          ++ body).
  split; [by rewrite <- !app_assoc|].
  rewrite last_app, Hlast. done.
Qed.

Lemma failedWith_not_allSucceeded e h new :
  failed e h new -> allOk h new -> False.
Proof.
  intros (pre & c & post & Hnew & Hc & He) Hall.
  specialize (Hall pre c post Hnew Hc). congruence.
Qed.

(** X24: [copyFile] returns nil exactly when opening the source,
    creating the manifest copy and copying all succeeded; the results of
    its deferred [Close] calls play no part. *)
Theorem copyFile_nil_iff (source dest : string) (h : list call) :
  (copyFile env Join source dest h).1 = None <->
  allSucceeded env h (added (copyFile env Join source dest) h).
Proof.
  destruct (copyFile_spec source dest h)
    as (new & Hrun & _ & _ & _ & _ & Hfail & Hok).
  cbv zeta in *. unfold added. rewrite Hrun. cbn [fst snd].
  rewrite drop_app_length. split.
  - intros Hnone. rewrite Hrun in Hnone. by destruct (Hok Hnone).
  - intros Hall.
    destruct ((copyFile env Join source dest h).1) as [e|] eqn:E; [|done].
    destruct (failedWith_not_allSucceeded e h new); [by apply Hfail|done].
Qed.

(** X25: [copyFile] closes the files it has opened with success, the
    source and the manifest copy, on each of its three ways out. *)
Theorem copyFile_closes_what_it_opened (source dest : string)
    (h : list call) :
  opened env h (added (copyFile env Join source dest) h)
  ≡ₚ closed (added (copyFile env Join source dest) h).
Proof.
  destruct (copyFile_spec source dest h)
    as (new & Hrun & _ & _ & _ & Hop & _).
  cbv zeta in *. unfold added. rewrite Hrun. cbn [fst snd].
  by rewrite drop_app_length.
Qed.

End SaveFacts.

(** The properties of [Save] on the test doubles: a run in which every
    call succeeds, and a run in which the flush of the first log file is
    refused. *)
Lemma Save_compose_calls_witness :
  filter runner.isCompose (runner.added (testSave refuseNone) [])
  = flat_map (runner.composeCalls testTestnet) (runner.Nodes testTestnet).
Proof.
  destruct (Save_compose_calls (testEnv refuseNone) testJoin testTrimSpace
              testScanLines testTestnet []) as (_ & _ & H).
  apply H. vm_compute. reflexivity.
Defined.

Lemma Save_nil_all_succeeded_witness :
  runner.allSucceeded (testEnv refuseNone) []
    (runner.added (testSave refuseNone) []).
Proof.
  apply (Save_nil_all_succeeded (testEnv refuseNone) testJoin testTrimSpace
           testScanLines testTestnet []).
  vm_compute. reflexivity.
Defined.

Lemma Save_error_source_witness :
  (runner.failedWith (testEnv refuseFlush) "refused" []
     (runner.added (testSave refuseFlush) []) \/
   exists node,
     node ∈ runner.Nodes testTestnet /\
     runner.scanFailedAt (testEnv refuseFlush) testScanLines
       (runner.logsCall testTestnet node) "refused" []
       (runner.added (testSave refuseFlush) [])) /\
  (runner.failedWith (testEnv refuseNone) "token too long" []
     (runner.added
        (runner.Save (testEnv refuseNone) testJoin testTrimSpace
           testScanFails testTestnet) []) \/
   exists node,
     node ∈ runner.Nodes testTestnet /\
     runner.scanFailedAt (testEnv refuseNone) testScanFails
       (runner.logsCall testTestnet node) "token too long" []
       (runner.added
          (runner.Save (testEnv refuseNone) testJoin testTrimSpace
             testScanFails testTestnet) [])).
Proof.
  split.
  - apply (Save_error_source (testEnv refuseFlush) testJoin testTrimSpace
             testScanLines testTestnet [] "refused").
    vm_compute. reflexivity.
  - apply (Save_error_source (testEnv refuseNone) testJoin testTrimSpace
             testScanFails testTestnet [] "token too long").
    vm_compute. reflexivity.
Defined.

Lemma Save_manifest_copies_witness :
  length (filter runner.isCopy (runner.added (testSave refuseNone) []))
  = length (runner.Nodes testTestnet).
Proof.
  destruct (Save_manifest_copies (testEnv refuseNone) testJoin testTrimSpace
              testScanLines testTestnet []) as (_ & H).
  apply H. vm_compute. reflexivity.
Defined.

Lemma Save_closes_logs_last_witness :
  exists before,
    runner.added (testSave refuseNone) []
    = before ++
      (runner.Close <$>
         reverse (runner.logFileOf testJoin
                    (runner.executionFolderOf (testEnv refuseNone) testJoin
                       testTestnet [])
                  <$> runner.Nodes testTestnet)) /\
    last before = Some (runner.LogInfo "saved execution"
                          "finished saving execution information").
Proof.
  apply (Save_closes_logs_last (testEnv refuseNone) testJoin testTrimSpace
           testScanLines testTestnet []).
  vm_compute. reflexivity.
Defined.

Lemma copyFile_nil_iff_witness :
  runner.allSucceeded (testEnv refuseNone) []
    (runner.added
       (runner.copyFile (testEnv refuseNone) testJoin "networks/ci.toml"
          "networks_executions/ci") []).
Proof.
  apply (copyFile_nil_iff (testEnv refuseNone) testJoin "networks/ci.toml"
           "networks_executions/ci" []).
  vm_compute. reflexivity.
Defined.
